(** * The Golden Spoon chat widget: the turn handler of [src/index.tsx]

    The development embeds [handleSendMessage] (lines 71-124) together with
    the React state it reads and writes, and proves the properties of the
    message thread that the specification states.

    The handler is an [async] function.  It runs synchronously up to its
    first [await], and is resumed when the awaited promise of
    [chat.sendMessage] settles.  The embedding therefore is a transition
    system: an event is a form submission, a keystroke in the input, or the
    settlement of a promise that a suspended handler instance waits for.
    One event runs to completion before the next (JavaScript has one
    thread), and React applies the state updates that a run of the handler
    queued ([setMessages] with an updater function, [setUserInput],
    [setIsLoading]) in their order before the next event is handled: a step
    takes the page from one rendered state to the next.

    The chat session is the environment.  A call of [chat.sendMessage] is
    recorded, and what it answers, with a response or by rejecting, and
    when, is chosen by the event that settles it. *)

From Stdlib Require Import String Ascii List ZArith NArith Bool Lia.
From Stdlib Require Import DecimalString DecimalZ Floats.SpecFloat.
Import ListNotations.

(** ** JavaScript strings *)

Module Js.

(** A JavaScript string is a sequence of UTF-16 code units. *)
Definition JsString := list N.

(** A string literal of the source (all of them are ASCII). *)
Definition lit (s : string) : JsString :=
  List.map N_of_ascii (list_ascii_of_string s).

(** [WhiteSpace] and [LineTerminator] of ECMAScript, the code points that
    [String.prototype.trim] strips: TAB, LF, VT, FF, CR, SP, NBSP, the
    Unicode space separators, LS, PS and the byte order mark. *)
Definition is_ws (c : N) : bool :=
  match c with
  | 9 | 10 | 11 | 12 | 13 | 32 | 160 | 5760
  | 8232 | 8233 | 8239 | 8287 | 12288 | 65279 => true
  | _ => (8192 <=? c) && (c <=? 8202)
  end%N.

Fixpoint trimStart (s : JsString) : JsString :=
  match s with
  | c :: s' => if is_ws c then trimStart s' else s
  | [] => []
  end.

Definition trimEnd (s : JsString) : JsString := rev (trimStart (rev s)).

Definition trim (s : JsString) : JsString := trimEnd (trimStart s).

(** [!s] for a string: only the empty string is falsy. *)
Definition falsy (s : JsString) : bool :=
  match s with [] => true | _ :: _ => false end.

(** [a || b] where [a] is a string or [undefined]. *)
Definition or_else (a : option JsString) (b : JsString) : JsString :=
  match a with
  | Some (c :: s) => c :: s
  | Some [] | None => b
  end.

(** [Array.prototype.join] on an array of strings. *)
Fixpoint join (sep : JsString) (l : list JsString) : JsString :=
  match l with
  | [] => []
  | [x] => x
  | x :: rest => x ++ sep ++ join sep rest
  end.

Definition eqb (a b : JsString) : bool :=
  if list_eq_dec N.eq_dec a b then true else false.

(** [s] occurs in [t] as a contiguous run of code units. *)
Definition occurs_in (s t : JsString) : Prop :=
  exists pre post, t = pre ++ s ++ post.

End Js.

Import Js.

(** ** JavaScript numbers

    A Number is an IEEE 754 binary64 value.  The model takes the
    multiplication of the Standard Library's executable specification of
    floating-point arithmetic ([SpecFloat], precision 53, [emax] 1024,
    rounding to nearest, ties to even), which is the operation [*]
    denotes. *)

Module Num.

Definition prec : Z := 53.
Definition emax : Z := 1024.

Definition mul : spec_float -> spec_float -> spec_float := SFmul prec emax.

(** The literal [10000], in binary64: [10000 * 2^39 * 2^-39], a mantissa
    of 53 bits. *)
Definition ten_thousand : spec_float :=
  S754_finite false 5497558138880000 (-39).

(** The binary64 value [1]. *)
Definition one : spec_float := S754_finite false 4503599627370496 (-52).

(** What [Math.random()] may return: "a Number value with positive sign,
    greater than or equal to 0 but strictly less than 1". *)
Definition is_random_value (x : spec_float) : bool :=
  match x with
  | S754_zero false => true
  | S754_finite false m e => bounded prec emax m e && SFltb x one
  | _ => false
  end.

Record Random : Set := mkRandom {
  random_value : spec_float;
  random_range : is_random_value random_value = true
}.

(** [Math.floor] on a finite Number, as an integer.  [Z.shiftl] with a
    negative shift is the flooring division by a power of two.  (A NaN or
    an infinity is its own floor and no integer; the handler applies
    [Math.floor] to the product of a [Random] and [10000] only, which
    [random_times_10000_finite] below shows to be zero or finite.) *)
Definition Math_floor (x : spec_float) : Z :=
  match x with
  | S754_finite false m e => Z.shiftl (Zpos m) e
  | S754_finite true m e => Z.shiftl (Zneg m) e
  | _ => 0
  end.

(** [Number::toString] of an integer below [10^21]: its decimal
    digits, with a minus sign when negative. *)
Definition toString (n : Z) : JsString :=
  lit (DecimalString.NilZero.string_of_int (Z.to_int n)).

End Num.

(** ** The data of the handler *)

Inductive Sender := user | bot | loading.

(** [type Message = { sender: "user" | "bot" | "loading"; text: string }].
    Types are erased at run time, and line 108 stores [result.text], which
    the SDK declares as [string | undefined]: the [text] of a record is a
    string or [undefined] ([None]). *)
Record Message := mkMessage {
  sender : Sender;
  text : option JsString
}.

(** The value of a property of [fc.args], as far as [.join] tells values
    apart: an array, each element given by the string that [join] renders
    it as (a string element, which is what the declared schema asks for, is
    rendered as itself); [null]; or a value with no [join] method (a
    string, a number, a boolean, a plain object). *)
Inductive ArgValue :=
| ArgArray (elements : list JsString)
| ArgNull
| ArgNoJoin.

(** A [FunctionCall] of the SDK: [id], [name] and [args] are all optional.
    [args] is an object, here its list of properties. *)
Record FunctionCall := mkFunctionCall {
  fc_id : option JsString;
  fc_name : option JsString;
  fc_args : option (list (JsString * ArgValue))
}.

(** Property lookup [args[key]]: [None] is [undefined]. *)
Fixpoint get (args : list (JsString * ArgValue)) (key : JsString)
  : option ArgValue :=
  match args with
  | [] => None
  | (k, v) :: rest => if Js.eqb k key then Some v else get rest key
  end.

(** The response of [chat.sendMessage], through the two getters the handler
    reads. *)
Record GenerateContentResponse := mkResponse {
  functionCalls : option (list FunctionCall);
  resp_text : option JsString
}.

(** The argument of a call of [chat.sendMessage]: a user message (line 85)
    or a tool response (lines 96-104). *)
Inductive SendMessageParameters :=
| message (m : JsString)
| toolResponse (id name : option JsString) (result : JsString).

(** What the handler can throw inside its [try] block. *)
Inductive Error :=
| ChatNotInitialized        (* line 82 *)
| Rejection                 (* an awaited [sendMessage] promise rejects *)
| TypeError.                (* [fc.args.items] or [items.join] on a value that has none *)

(** How an awaited promise settles. *)
Inductive Settled :=
| Fulfilled (result : GenerateContentResponse)
| Rejected.

(** The handle of the chat session ([chatRef.current] when not [null]). *)
Inductive Chat := chat_session.

(** A handler instance suspended at an [await]: at line 85, or at line 96
    with the one local it still needs. *)
Inductive Suspended :=
| AwaitSend
| AwaitToolResponse (confirmationMessage : JsString).

(** The state of the page: the three [useState] cells, the ref, and what
    the run-time system holds: the suspended handler instances, the calls
    made on the chat session so far (oldest first), and the errors the
    [catch] block wrote to the console. *)
Record App := mkApp {
  messages : list Message;
  userInput : JsString;
  isLoading : bool;
  chatRef : option Chat;
  suspended : list Suspended;
  sent : list SendMessageParameters;
  console : list Error
}.

Definition placeOrder : JsString := lit "placeOrder".
Definition items_key : JsString := lit "items".

Definition welcome : Message :=
  mkMessage bot
    (Some (lit "Hello! Welcome to 'The Golden Spoon'. What can I get for you today?")).

Definition pending : Message := mkMessage loading (Some (lit "...")).

Definition errorMessage : Message :=
  mkMessage bot (Some (lit "Sorry, something went wrong. Please try again.")).

(** ** The handler *)

(** Line 92: [Math.floor(Math.random() * 10000)]. *)
Definition orderNumber (r : Num.Random) : Z :=
  Num.Math_floor (Num.mul (Num.random_value r) Num.ten_thousand).

(** Line 93. *)
Definition confirmationMessage (items : list JsString) (n : Z) : JsString :=
  lit "Great! I've placed an order for: " ++ join (lit ", ") items
  ++ lit ". Your order number is #" ++ Num.toString n
  ++ lit ". Is there anything else?".

(** Line 101. *)
Definition toolResult (n : Z) : JsString :=
  lit "Order placed successfully. Order number: " ++ Num.toString n.

(** [fc.name === 'placeOrder']. *)
Definition is_placeOrder (fc : FunctionCall) : bool :=
  match fc_name fc with
  | Some n => Js.eqb n placeOrder
  | None => false
  end.

(** Where a stretch of the [try] block ends: at the [throw] of an error,
    at line 111 with [botResponseText], or suspended at the [await] of a
    further [sendMessage]. *)
Inductive Outcome :=
| Throw (e : Error)
| Reply (botResponseText : option JsString)
| Call (p : SendMessageParameters) (k : Suspended).

(** Lines 86-109, run when the promise of line 85 is fulfilled. *)
Definition on_result (result : GenerateContentResponse) (r : Num.Random)
  : Outcome :=
  match functionCalls result with
  | Some (fc :: _) =>
      if is_placeOrder fc then
        match fc_args fc with
        | None => Throw TypeError
        | Some args =>
            match get args items_key with
            | Some (ArgArray items) =>
                let n := orderNumber r in
                Call (toolResponse (fc_id fc) (fc_name fc) (toolResult n))
                     (AwaitToolResponse (confirmationMessage items n))
            | Some ArgNull | Some ArgNoJoin | None => Throw TypeError
            end
        end
      else Reply (Some [])
  | Some [] | None => Reply (resp_text result)
  end.

(** The handler resumed at its [await] by the settlement of the promise. *)
Definition resume (k : Suspended) (s : Settled) (r : Num.Random) : Outcome :=
  match k, s with
  | _, Rejected => Throw Rejection
  | AwaitSend, Fulfilled result => on_result result r
  | AwaitToolResponse confirmation, Fulfilled toolResponseResult =>
      Reply (Some (or_else (resp_text toolResponseResult) confirmation))
  end.

(** [prev.slice(0, -1)] is [removelast prev], also on the empty array. *)

(** Lines 111-112, then [finally]. *)
Definition reply (botResponseText : option JsString) (st : App) : App :=
  mkApp (removelast (messages st) ++ [mkMessage bot botResponseText])
        (userInput st) false (chatRef st) (suspended st) (sent st)
        (console st).

(** Lines 114-120, then [finally]. *)
Definition catch (e : Error) (st : App) : App :=
  mkApp (removelast (messages st) ++ [errorMessage])
        (userInput st) false (chatRef st) (suspended st) (sent st)
        (console st ++ [e]).

(** An [await] on a call of [sendMessage]: the call is made and the
    instance is suspended. *)
Definition await (p : SendMessageParameters) (k : Suspended) (st : App) : App :=
  mkApp (messages st) (userInput st) (isLoading st) (chatRef st)
        (suspended st ++ [k]) (sent st ++ [p]) (console st).

Definition continue (o : Outcome) (st : App) : App :=
  match o with
  | Throw e => catch e st
  | Reply botResponseText => reply botResponseText st
  | Call p k => await p k st
  end.

(** Lines 72-85: the handler from the submission of the form to its first
    [await], or to its end when it does not get that far. *)
Definition handleSendMessage (st : App) : App :=
  if falsy (trim (userInput st)) || isLoading st then st
  else
    let userMessage := mkMessage user (Some (userInput st)) in
    let st1 :=
      mkApp (messages st ++ [userMessage; pending]) [] true
            (chatRef st) (suspended st) (sent st) (console st) in
    match chatRef st with
    | None => catch ChatNotInitialized st1
    | Some _ => await (message (userInput st)) AwaitSend st1
    end.

(** Removal of the [i]-th suspended instance. *)
Fixpoint remove_nth {A} (i : nat) (l : list A) : list A :=
  match i, l with
  | _, [] => []
  | O, _ :: l' => l'
  | S i', x :: l' => x :: remove_nth i' l'
  end.

(** The promise that the [i]-th suspended instance awaits settles, and the
    instance runs on. *)
Definition settle (i : nat) (s : Settled) (r : Num.Random) (st : App) : App :=
  match nth_error (suspended st) i with
  | None => st
  | Some k =>
      continue (resume k s r)
        (mkApp (messages st) (userInput st) (isLoading st) (chatRef st)
               (remove_nth i (suspended st)) (sent st) (console st))
  end.

(** Line 348: [onChange] of the input. *)
Definition setUserInput (value : JsString) (st : App) : App :=
  mkApp (messages st) value (isLoading st) (chatRef st) (suspended st)
        (sent st) (console st).


(** ** The page as a transition system *)

Inductive Event :=
| Change (value : JsString)
| Submit
| Settle (i : nat) (s : Settled) (r : Num.Random).

Definition step (st : App) (ev : Event) : App :=
  match ev with
  | Change value => setUserInput value st
  | Submit => handleSendMessage st
  | Settle i s r => settle i s r st
  end.

Definition run (st : App) (evs : list Event) : App := fold_left step evs st.

(** Lines 13-15, 18 and the effect of lines 43-63, which runs once, after
    the first render.  [init true] is the page after the effect: the chat
    session is in [chatRef] and the thread holds the welcome message.
    [init false] is a page whose [chatRef.current] is still [null], the
    case that the check of lines 81-83 provides for; the effect as written
    does not leave a page in it (an exception of [ai.chats.create] is not
    caught there), so it adds states to those that [reachable] covers and
    takes none away. *)
Definition init (created : bool) : App :=
  if created
  then mkApp [welcome] [] false (Some chat_session) [] [] []
  else mkApp [] [] false None [] [] [].

Inductive reachable : App -> Prop :=
| reachable_init created : reachable (init created)
| reachable_step st ev : reachable st -> reachable (step st ev).

(** ** What the claims speak about *)

Definition is_pending (m : Message) : bool :=
  match sender m with loading => true | _ => false end.

(** The pending records of a message thread. *)
Definition pending_records (l : list Message) : list Message :=
  filter is_pending l.

(** The two situations a page can be in: no turn in flight, and no pending
    record; or one turn in flight, one handler instance suspended, and the
    pending record at the end of the thread. *)
Inductive turn_state (st : App) : Prop :=
| turn_idle :
    isLoading st = false -> suspended st = [] ->
    pending_records (messages st) = [] -> turn_state st
| turn_in_flight k ms :
    isLoading st = true -> suspended st = [k] ->
    messages st = ms ++ [pending] -> pending_records ms = [] ->
    turn_state st.

(** The page state, on an unending schedule of events that starts in [st],
    in which the event number [t] is about to happen. *)
Definition state_at (st : App) (schedule : nat -> Event) (t : nat) : App :=
  run st (List.map schedule (seq 0 t)).

(** The event settles the promise of the first suspended instance. *)
Definition is_settlement (ev : Event) : bool :=
  match ev with
  | Settle O _ _ => true
  | Settle (S _) _ _ | Change _ | Submit => false
  end.

(** On the schedule every awaited call settles: whenever a handler
    instance is suspended, a settlement comes, then or later. *)
Definition every_call_settles (st : App) (schedule : nat -> Event) : Prop :=
  forall t, suspended (state_at st schedule t) <> [] ->
            exists t', (t <= t')%nat /\ is_settlement (schedule t') = true.

(** The reading of "always eventually replaced" without a condition on the
    service: on every schedule, a pending record that is there at one time
    is gone at a later time. *)
Definition pending_always_eventually_replaced : Prop :=
  forall created schedule t,
    pending_records (messages (state_at (init created) schedule t)) <> [] ->
    exists t', (t <= t')%nat /\
      pending_records (messages (state_at (init created) schedule t')) = [].

(** A schedule on which the user submits once and the service never
    answers. *)
Definition unanswered : nat -> Event :=
  fun t =>
    match t with
    | O => Change (lit "Pizza, please")
    | S O => Submit
    | S (S _) => Change []
    end.

(** [fc.args.items.join] throws: [args] or [items] is missing, or [items]
    is [null] or has no [join]. *)
Definition malformed (fc : FunctionCall) : bool :=
  match fc_args fc with
  | None => true
  | Some args =>
      match get args items_key with
      | Some (ArgArray _) => false
      | Some ArgNull | Some ArgNoJoin | None => true
      end
  end.

(** The calls of [sendMessage] that carry a tool response. *)
Definition tool_responses (l : list SendMessageParameters)
  : list SendMessageParameters :=
  filter (fun p => match p with toolResponse _ _ _ => true | message _ => false end) l.

(** The decimal rendering of a number from 0 to 9999: one to four code
    units, all of them digits. *)
Definition is_order_number_text (s : JsString) : bool :=
  (1 <=? length s)%nat && (length s <=? 4)%nat
  && forallb (fun c => (48 <=? c)%N && (c <=? 57)%N) s.


(** ** Sample inputs *)

(** [Math.random()] returning [0]. *)
Definition zero_random : Num.Random := Num.mkRandom (S754_zero false) eq_refl.

(** The page after the user typed a text and submitted it, with a chat
    session: the turn is in flight. *)
Definition asked : App :=
  run (init true) [Change (lit "Pizza, please"); Submit].

(** The response of the specification's scenario: [placeOrder] for a Pizza
    and a Coke. *)
Definition pizza_and_coke : GenerateContentResponse :=
  mkResponse
    (Some [mkFunctionCall (Some (lit "call-1")) (Some placeOrder)
             (Some [(items_key, ArgArray [lit "Pizza"; lit "Coke"])])])
    None.


(** [placeOrder] without the [items] argument. *)
Definition order_without_items : GenerateContentResponse :=
  mkResponse
    (Some [mkFunctionCall (Some (lit "call-1")) (Some placeOrder) (Some [])])
    None.

(** A function call that is not [placeOrder]. *)
Definition cancel_order : GenerateContentResponse :=
  mkResponse
    (Some [mkFunctionCall (Some (lit "call-1")) (Some (lit "cancelOrder"))
             (Some [(items_key, ArgArray [lit "Pizza"])])])
    None.

(** The largest binary64 number below 1, [1 - 2^-53], gives 9999: the
    product [10000 - 10000 * 2^-53] rounds to [10000 - 2^-39], not to
    [10000]. *)
Definition largest_random : Num.Random :=
  Num.mkRandom (S754_finite false 9007199254740991 (-53)) eq_refl.

(** ** The view

    What [App] returns at lines 338-356, as far as it depends on the state:
    one bubble for each record of the thread, and the form with the input
    and the send button. *)

(** A React element: a tag with its [className] and children, or a text. *)
#[warnings="-register-all"] Inductive Element :=
| element (tag : string) (className : option JsString) (children : list Element)
| textNode (s : JsString).

(** [msg.sender] inside the template literal of line 138. *)
Definition sender_string (s : Sender) : JsString :=
  match s with
  | user => lit "user"
  | bot => lit "bot"
  | loading => lit "loading"
  end.

(** Lines 131-133. *)
Definition typing_indicator : Element :=
  element "div" (Some (lit "typing-indicator"))
    [element "span" None []; element "span" None []; element "span" None []].

(** Lines 127-142.  A child that is [undefined] renders nothing. *)
Definition MessageBubble (msg : Message) : Element :=
  match sender msg with
  | loading =>
      element "div" (Some (lit "message-bubble bot")) [typing_indicator]
  | user | bot =>
      element "div" (Some (lit "message-bubble " ++ sender_string (sender msg)))
        [element "p" None
           match text msg with
           | Some s => [textNode s]
           | None => []
           end]
  end.

(** [Array.prototype.map] with a callback that takes the element and its
    index. *)
Fixpoint map_from {A B} (f : A -> nat -> B) (index : nat) (l : list A)
  : list B :=
  match l with
  | [] => []
  | x :: l' => f x index :: map_from f (S index) l'
  end.

Definition Array_map {A B} (f : A -> nat -> B) (l : list A) : list B :=
  map_from f 0 l.

(** Lines 339-341: the bubbles, each with its [key]. *)
Definition chat_messages (st : App) : list (nat * Element) :=
  Array_map (fun msg index => (index, MessageBubble msg)) (messages st).

(** Line 353: the [disabled] attribute of the send button. *)
Definition send_disabled (st : App) : bool :=
  isLoading st || falsy (trim (userInput st)).

(** The class names and the texts of an element, in document order. *)
Fixpoint classes (e : Element) : list JsString :=
  match e with
  | textNode _ => []
  | element _ c children =>
      match c with Some c => [c] | None => [] end ++ flat_map classes children
  end.

Fixpoint texts (e : Element) : list JsString :=
  match e with
  | textNode s => [s]
  | element _ _ children => flat_map texts children
  end.

Definition shows_typing_indicator (e : Element) : bool :=
  existsb (Js.eqb (lit "typing-indicator")) (classes e).

(** ** More vocabulary *)

(** The states of a page whose [initChat] did, or did not, get a chat
    session. *)
Definition reachable_from (created : bool) (st : App) : Prop :=
  exists evs, st = run (init created) evs.

(** The records of a thread that are not pending. *)
Definition committed (l : list Message) : list Message :=
  filter (fun m => negb (is_pending m)) l.

Definition is_user (m : Message) : bool :=
  match sender m with user => true | bot | loading => false end.

(** The texts of the user's records, and of the user messages sent to the
    chat session. *)
Definition user_texts (l : list Message) : list (option JsString) :=
  List.map text (filter is_user l).

Definition message_texts (l : list SendMessageParameters) : list JsString :=
  flat_map (fun p => match p with
                     | message m => [m]
                     | toolResponse _ _ _ => []
                     end) l.

(** The five kinds of steps that a page takes: nothing but the input
    changes; a turn starts, with a text that is not blank; such a
    submission is refused for want of a chat session; the tool response
    of [placeOrder] is sent; the turn ends with a bot record [b] in the
    place of the pending record. *)
Inductive transition (st st' : App) : Prop :=
| same_thread :
    messages st' = messages st -> isLoading st' = isLoading st ->
    suspended st' = suspended st -> sent st' = sent st ->
    console st' = console st -> transition st st'
| turn_starts :
    isLoading st = false -> chatRef st = Some chat_session ->
    messages st' =
      messages st ++ [mkMessage user (Some (userInput st)); pending] ->
    isLoading st' = true -> suspended st' = [AwaitSend] ->
    sent st' = sent st ++ [message (userInput st)] ->
    console st' = console st ->
    falsy (trim (userInput st)) = false -> transition st st'
| turn_refused :
    isLoading st = false -> chatRef st = None ->
    messages st' =
      messages st ++ [mkMessage user (Some (userInput st)); errorMessage] ->
    isLoading st' = false -> suspended st' = [] ->
    sent st' = sent st ->
    console st' = console st ++ [ChatNotInitialized] ->
    falsy (trim (userInput st)) = false -> transition st st'
| tool_response_sent id name result confirmation :
    suspended st = [AwaitSend] ->
    messages st' = messages st -> isLoading st' = isLoading st ->
    suspended st' = [AwaitToolResponse confirmation] ->
    sent st' = sent st ++ [toolResponse id name result] ->
    console st' = console st ->
    name = Some placeOrder ->
    (exists r, result = toolResult (orderNumber r)) -> transition st st'
| turn_ends ms b :
    isLoading st = true ->
    messages st = ms ++ [pending] -> pending_records ms = [] ->
    sender b = bot -> messages st' = ms ++ [b] ->
    isLoading st' = false -> suspended st' = [] ->
    sent st' = sent st ->
    console st' = console st \/
    (b = errorMessage /\ exists e, console st' = console st ++ [e]) ->
    transition st st'.

(** In a log of calls, every tool response comes right after a user
    message. *)
Definition tool_responses_follow_messages (l : list SendMessageParameters)
  : Prop :=
  forall i id name result,
    nth_error l i = Some (toolResponse id name result) ->
    exists j m, i = S j /\ nth_error l j = Some (message m).

(** A binary64 number near [(n + 1/2) / 10000]: the integer [2n + 1]
    divided by [20000], both exact in binary64. *)
Definition random_for (n : Z) : spec_float :=
  SFdiv Num.prec Num.emax
    (binary_normalize Num.prec Num.emax (2 * n + 1) 0 false)
    (binary_normalize Num.prec Num.emax 20000 0 false).

(** ** The scenarios of the specification, run on the embedding *)

(** A question, answered in plain text. *)
Example scenario_menu :
  let st := run (init true)
    [Change (lit "What's on the menu?"); Submit;
     Settle 0 (Fulfilled (mkResponse None (Some (lit "Pizza, Burger, Pasta."))))
            zero_random] in
  messages st =
    [welcome; mkMessage user (Some (lit "What's on the menu?"));
     mkMessage bot (Some (lit "Pizza, Burger, Pasta."))] /\
  sent st = [message (lit "What's on the menu?")] /\
  isLoading st = false /\ userInput st = [].
Proof. repeat split. Qed.

(** An order, had the chat session answered the tool response, with no
    text: line 105 falls back on the confirmation. *)
Example scenario_order :
  let st := run (init true)
    [Change (lit "I'd like a Pizza and a Coke"); Submit;
     Settle 0 (Fulfilled pizza_and_coke) largest_random;
     Settle 0 (Fulfilled (mkResponse None (Some []))) zero_random] in
  messages st =
    [welcome; mkMessage user (Some (lit "I'd like a Pizza and a Coke"));
     mkMessage bot
       (Some (lit "Great! I've placed an order for: Pizza, Coke. Your order number is #9999. Is there anything else?"))] /\
  sent st =
    [message (lit "I'd like a Pizza and a Coke");
     toolResponse (Some (lit "call-1")) (Some placeOrder)
       (lit "Order placed successfully. Order number: 9999")].
Proof. split; reflexivity. Qed.

(** An order as the page runs it: the chat session rejects the call that
    carries the tool response, and the turn ends with the apology. *)
Example scenario_order_rejected :
  let st := run (init true)
    [Change (lit "I'd like a Pizza and a Coke"); Submit;
     Settle 0 (Fulfilled pizza_and_coke) largest_random;
     Settle 0 Rejected zero_random] in
  messages st =
    [welcome; mkMessage user (Some (lit "I'd like a Pizza and a Coke"));
     errorMessage] /\
  console st = [Rejection] /\ isLoading st = false.
Proof. repeat split. Qed.

(** The remote call rejects; the next submission is answered. *)
Example scenario_rejection :
  let st := run (init true)
    [Change (lit "Hello"); Submit; Settle 0 Rejected zero_random] in
  let st' := run st
    [Change (lit "Hello?"); Submit;
     Settle 0 (Fulfilled (mkResponse None (Some (lit "Hi!")))) zero_random] in
  messages st = [welcome; mkMessage user (Some (lit "Hello")); errorMessage] /\
  isLoading st = false /\ console st = [Rejection] /\
  messages st' =
    messages st ++ [mkMessage user (Some (lit "Hello?"));
                    mkMessage bot (Some (lit "Hi!"))].
Proof. repeat split. Qed.

(** A submission while the turn is in flight, and a settlement when no
    call is awaited, change nothing. *)
Example scenario_reentrancy :
  run asked [Change (lit "And a Coke"); Submit]
    = step asked (Change (lit "And a Coke")) /\
  step (init true) (Settle 0 Rejected zero_random) = init true.
Proof. split; reflexivity. Qed.

(** ** Strings *)

Lemma trimStart_ws (s : JsString) :
  Forall (fun c => is_ws c = true) s -> trimStart s = [].
Proof.
  induction 1 as [|c s Hc _ IH]; cbn [trimStart]; [reflexivity|].
  now rewrite Hc.
Qed.

Lemma trimStart_nil_ws (s : JsString) :
  trimStart s = [] -> Forall (fun c => is_ws c = true) s.
Proof.
  induction s as [|c s IH]; cbn [trimStart]; [constructor|].
  destruct (is_ws c) eqn:Hc; [|discriminate].
  intro H. constructor; auto.
Qed.

Lemma trimStart_head (s t : JsString) (c : N) :
  trimStart s = c :: t -> is_ws c = false.
Proof.
  induction s as [|a s IH]; cbn [trimStart]; [discriminate|].
  destruct (is_ws a) eqn:Ha; [exact IH|].
  now intros [= <- _].
Qed.

(** [!userInput.trim()] holds exactly of the strings made of whitespace
    only (the empty string among them). *)
Lemma falsy_trim_iff (s : JsString) :
  falsy (trim s) = true <-> Forall (fun c => is_ws c = true) s.
Proof.
  unfold trim, trimEnd. split.
  - intro H.
    assert (E : trimStart (rev (trimStart s)) = []).
    { destruct (trimStart (rev (trimStart s))) as [|d l]; [reflexivity|].
      cbn [rev] in H. destruct (rev l); discriminate H. }
    apply trimStart_nil_ws, Forall_rev in E. rewrite rev_involutive in E.
    apply trimStart_nil_ws.
    destruct (trimStart s) as [|c t] eqn:Es; [reflexivity|].
    pose proof (trimStart_head s t c Es) as Hc.
    inversion E; congruence.
  - intro H. rewrite (trimStart_ws s H). reflexivity.
Qed.

Lemma eqb_eq (a b : JsString) : Js.eqb a b = true <-> a = b.
Proof.
  unfold Js.eqb. destruct (list_eq_dec N.eq_dec a b); split; congruence.
Qed.

Lemma occurs_in_join (sep x : JsString) (l : list JsString) :
  In x l -> occurs_in x (join sep l).
Proof.
  induction l as [|y l IH]; [intros []|].
  intros [-> | Hin].
  - destruct l as [|z l].
    + exists [], []. cbn. now rewrite app_nil_r.
    + exists [], (sep ++ join sep (z :: l)). reflexivity.
  - destruct l as [|z l]; [destruct Hin|].
    destruct (IH Hin) as (pre & post & E).
    exists (y ++ sep ++ pre), post.
    change (join sep (y :: z :: l)) with (y ++ sep ++ join sep (z :: l)).
    rewrite E. now rewrite <- !app_assoc.
Qed.

Lemma occurs_in_app_l (x s t : JsString) : occurs_in x s -> occurs_in x (s ++ t).
Proof.
  intros (pre & post & ->). exists pre, (post ++ t). now rewrite <- !app_assoc.
Qed.

Lemma occurs_in_app_r (x s t : JsString) : occurs_in x t -> occurs_in x (s ++ t).
Proof.
  intros (pre & post & ->). exists (s ++ pre), post. now rewrite <- !app_assoc.
Qed.

Lemma occurs_in_refl (x : JsString) : occurs_in x x.
Proof. exists [], []. cbn. now rewrite app_nil_r. Qed.

(** ** The turn invariant *)

Lemma removelast_snoc2 {A} (l : list A) (a b : A) :
  removelast (l ++ [a; b]) = l ++ [a].
Proof.
  change (l ++ [a; b]) with (l ++ [a] ++ [b]).
  rewrite app_assoc. apply removelast_last.
Qed.

Lemma pending_records_app (l l' : list Message) :
  pending_records (l ++ l') = pending_records l ++ pending_records l'.
Proof. apply filter_app. Qed.

Lemma pending_records_snoc (l : list Message) (m : Message) :
  pending_records l = [] -> is_pending m = false ->
  pending_records (l ++ [m]) = [].
Proof.
  intros Hl Hm. rewrite pending_records_app, Hl. cbn. now rewrite Hm.
Qed.

Lemma settle_none (st : App) (i : nat) (s : Settled) (r : Num.Random) :
  nth_error (suspended st) i = None -> settle i s r st = st.
Proof. unfold settle. now intros ->. Qed.

Lemma settle_idle (st : App) (i : nat) (s : Settled) (r : Num.Random) :
  suspended st = [] -> settle i s r st = st.
Proof.
  intro Hs. apply settle_none. rewrite Hs. now destruct i.
Qed.

Lemma settle_beyond (st : App) (k : Suspended) (i : nat) (s : Settled)
      (r : Num.Random) :
  suspended st = [k] -> settle (S i) s r st = st.
Proof.
  intro Hs. apply settle_none. rewrite Hs. now destruct i.
Qed.

(** The one suspended instance of a turn in flight, resumed. *)
Lemma settle_in_flight (st : App) (k : Suspended) (s : Settled)
      (r : Num.Random) :
  suspended st = [k] ->
  settle 0 s r st =
  continue (resume k s r)
    (mkApp (messages st) (userInput st) (isLoading st) (chatRef st) []
           (sent st) (console st)).
Proof. unfold settle. now intros ->. Qed.

Lemma turn_state_continue (o : Outcome) (st : App) (ms : list Message) :
  isLoading st = true -> suspended st = [] ->
  messages st = ms ++ [pending] -> pending_records ms = [] ->
  turn_state (continue o st).
Proof.
  intros Hl Hs Hm Hp. destruct o as [e | t | p k]; cbn [continue].
  - apply turn_idle; cbn; [reflexivity | assumption |].
    rewrite Hm, removelast_last. now apply pending_records_snoc.
  - apply turn_idle; cbn; [reflexivity | assumption |].
    rewrite Hm, removelast_last. now apply pending_records_snoc.
  - apply (turn_in_flight _ k ms); cbn; [assumption | now rewrite Hs | assumption..].
Qed.

Lemma turn_state_step (st : App) (ev : Event) :
  turn_state st -> turn_state (step st ev).
Proof.
  intros [Hl Hs Hp | k ms Hl Hs Hm Hp]; destruct ev as [v | | i s r];
    cbn [step].
  - now apply turn_idle.
  - unfold handleSendMessage. rewrite Hl, orb_false_r.
    destruct (falsy (trim (userInput st))); [now apply turn_idle|].
    destruct (chatRef st).
    + apply (turn_in_flight _ AwaitSend
               (messages st ++ [mkMessage user (Some (userInput st))]));
        cbn; [reflexivity | now rewrite Hs | now rewrite <- app_assoc |].
      now apply pending_records_snoc.
    + apply turn_idle; cbn; [reflexivity | assumption |].
      rewrite removelast_snoc2.
      apply pending_records_snoc; [|reflexivity].
      now apply pending_records_snoc.
  - rewrite settle_idle by assumption. now apply turn_idle.
  - now apply (turn_in_flight _ k ms).
  - unfold handleSendMessage. rewrite Hl, orb_true_r.
    now apply (turn_in_flight _ k ms).
  - destruct i as [|i].
    + rewrite (settle_in_flight st k) by assumption.
      now apply (turn_state_continue _ _ ms).
    + rewrite (settle_beyond st k) by assumption.
      now apply (turn_in_flight _ k ms).
Qed.

Lemma reachable_turn_state (st : App) : reachable st -> turn_state st.
Proof.
  induction 1 as [[] | st ev _ IH].
  - now apply turn_idle.
  - now apply turn_idle.
  - now apply turn_state_step.
Qed.

Lemma reachable_run (st : App) (evs : list Event) :
  reachable st -> reachable (run st evs).
Proof.
  revert st. induction evs as [|ev evs IH]; intros st H; cbn; [assumption|].
  apply IH. now constructor.
Qed.

Lemma reachable_asked : reachable asked.
Proof. apply reachable_run. constructor. Qed.

Lemma state_at_S (st : App) (schedule : nat -> Event) (t : nat) :
  state_at st schedule (S t) = step (state_at st schedule t) (schedule t).
Proof.
  unfold state_at, run. rewrite seq_S, map_app, fold_left_app. reflexivity.
Qed.

Lemma no_pending_records (l : list Message) (m : Message) :
  pending_records l = [] -> In m l -> is_pending m = false.
Proof.
  intros Hl Hin. destruct (is_pending m) eqn:Hm; [|reflexivity].
  assert (H : In m (pending_records l)) by (apply filter_In; auto).
  rewrite Hl in H. destruct H.
Qed.

(** A pending record of a thread that ends in the only one is that last
    element. *)
Lemma pending_is_last (ms : list Message) (i : nat) (m : Message) :
  pending_records ms = [] ->
  nth_error (ms ++ [pending]) i = Some m -> is_pending m = true ->
  S i = length (ms ++ [pending]).
Proof.
  intros Hp Hn Hm. rewrite length_app. cbn [length].
  destruct (Nat.lt_ge_cases i (length ms)) as [Hlt | Hge].
  - rewrite nth_error_app1 in Hn by assumption.
    apply nth_error_In in Hn.
    pose proof (no_pending_records ms m Hp Hn). congruence.
  - assert (i < length (ms ++ [pending]))%nat
      by (apply nth_error_Some; congruence).
    rewrite length_app in *. cbn [length] in *. lia.
Qed.

(** What the settlement of the awaited promise does to the thread of a turn
    in flight. *)
Lemma continue_messages (o : Outcome) (st : App) (ms : list Message) :
  messages st = ms ++ [pending] ->
  match o with
  | Throw _ => messages (continue o st) = ms ++ [errorMessage]
  | Reply t => messages (continue o st) = ms ++ [mkMessage bot t]
  | Call _ _ => messages (continue o st) = ms ++ [pending]
  end.
Proof.
  intro Hm. destruct o; cbn; rewrite Hm, ?removelast_last; reflexivity.
Qed.

(** At the second [await] the handler makes no further call. *)
Lemma resume_tool_response (c : JsString) (s : Settled) (r : Num.Random) :
  resume (AwaitToolResponse c) s r = Throw Rejection \/
  exists t, resume (AwaitToolResponse c) s r = Reply (Some t).
Proof. destruct s; cbn; eauto. Qed.

Lemma reachable_state_at (st : App) (schedule : nat -> Event) (t : nat) :
  reachable st -> reachable (state_at st schedule t).
Proof. apply reachable_run. Qed.

Lemma is_settlement_inv (ev : Event) :
  is_settlement ev = true -> exists s r, ev = Settle 0 s r.
Proof. destruct ev as [v | | [|i] s r]; try discriminate. eauto. Qed.

(** With no handler instance suspended, no pending record is shown. *)
Lemma idle_no_pending (st : App) :
  reachable st -> suspended st = [] -> pending_records (messages st) = [].
Proof.
  intros Hreach Hs.
  destruct (reachable_turn_state st Hreach) as [_ _ Hp | k ms _ Hs' _ _];
    [assumption | congruence].
Qed.

(** Until the awaited call settles, the turn in flight waits. *)
Lemma in_flight_waits (st : App) (k : Suspended) (ev : Event) :
  reachable st -> suspended st = [k] -> is_settlement ev = false ->
  suspended (step st ev) = [k].
Proof.
  intros Hreach Hs Hev.
  destruct (reachable_turn_state st Hreach) as [_ Hs' _ | k' ms Hl _ _ _];
    [congruence|].
  destruct ev as [v | | [|i] s r]; try discriminate Hev; cbn [step].
  - assumption.
  - unfold handleSendMessage. now rewrite Hl, orb_true_r.
  - now rewrite (settle_beyond st k).
Qed.

(** The settlement of the awaited call ends the turn, or, at the first
    [await], may lead to the second. *)
Lemma settlement_progress (st : App) (k : Suspended) (s : Settled)
      (r : Num.Random) :
  suspended st = [k] ->
  suspended (step st (Settle 0 s r)) = [] \/
  (k = AwaitSend /\
   exists c, suspended (step st (Settle 0 s r)) = [AwaitToolResponse c]).
Proof.
  intro Hs. cbn [step]. rewrite (settle_in_flight st k) by assumption.
  destruct k as [|c].
  - destruct (resume AwaitSend s r) as [e | t | p k'] eqn:Hres;
      [now left | now left |].
    right. split; [reflexivity|].
    destruct s as [result|]; [|discriminate].
    cbn [resume] in Hres. unfold on_result in Hres.
    repeat match type of Hres with
           | match ?x with _ => _ end = _ => destruct x
           | (if ?x then _ else _) = _ => destruct x
           end; try discriminate.
    injection Hres as _ <-. cbn. eauto.
  - left. destruct (resume_tool_response c s r) as [-> | [t ->]]; reflexivity.
Qed.

(** On a schedule on which a settlement comes at time [t + d], the
    instance suspended at time [t] is still the one suspended when the
    first settlement from [t] on comes. *)
Lemma first_settlement (st : App) (schedule : nat -> Event) (k : Suspended)
      (d t : nat) :
  reachable st ->
  suspended (state_at st schedule t) = [k] ->
  is_settlement (schedule (t + d)) = true ->
  exists t1, (t <= t1)%nat /\ is_settlement (schedule t1) = true /\
             suspended (state_at st schedule t1) = [k].
Proof.
  intro Hreach. revert t.
  induction d as [|d IH]; intros t Hs Hev.
  - rewrite Nat.add_0_r in Hev. exists t. auto.
  - destruct (is_settlement (schedule t)) eqn:Ht.
    + exists t. auto.
    + destruct (IH (S t)) as (t1 & Hle & Hev1 & Hs1).
      * rewrite state_at_S.
        apply in_flight_waits; [now apply reachable_state_at | assumption..].
      * now rewrite <- Nat.add_succ_comm in Hev.
      * exists t1. split; [lia | auto].
Qed.

(** When every awaited call settles, a suspended instance is resumed. *)
Lemma eventually_resumed (st : App) (schedule : nat -> Event) (k : Suspended)
      (t : nat) :
  reachable st -> every_call_settles st schedule ->
  suspended (state_at st schedule t) = [k] ->
  exists t1, (t <= t1)%nat /\
    (suspended (state_at st schedule (S t1)) = [] \/
     (k = AwaitSend /\
      exists c, suspended (state_at st schedule (S t1)) = [AwaitToolResponse c])).
Proof.
  intros Hreach Hfair Hs.
  destruct (Hfair t) as (t' & Hle & Hev); [rewrite Hs; discriminate|].
  replace t' with (t + (t' - t))%nat in Hev by lia.
  destruct (first_settlement st schedule k _ t Hreach Hs Hev)
    as (t1 & Hle1 & Hev1 & Hs1).
  destruct (is_settlement_inv _ Hev1) as (s & r & E).
  exists t1. split; [assumption|].
  rewrite state_at_S, E. now apply settlement_progress.
Qed.

(** When every awaited call settles, the pending record goes. *)
Lemma eventually_no_pending (st : App) (schedule : nat -> Event) (t : nat) :
  reachable st -> every_call_settles st schedule ->
  exists t', (t <= t')%nat /\
             pending_records (messages (state_at st schedule t')) = [].
Proof.
  intros Hreach Hfair.
  assert (Hr : forall u, reachable (state_at st schedule u))
    by (intro u; now apply reachable_state_at).
  destruct (reachable_turn_state _ (Hr t)) as [_ _ Hp | k ms _ Hs _ _].
  { exists t. auto. }
  destruct (eventually_resumed st schedule k t Hreach Hfair Hs)
    as (t1 & Hle1 & [Hdone | (-> & c & Hs1)]).
  { exists (S t1). split; [lia | now apply idle_no_pending]. }
  destruct (eventually_resumed st schedule _ (S t1) Hreach Hfair Hs1)
    as (t2 & Hle2 & [Hdone | (Habs & _)]).
  - exists (S t2). split; [lia | now apply idle_no_pending].
  - discriminate Habs.
Qed.

(** ** The pending record *)

(** C1 (as amended).  In every reachable state the thread holds at most one
    pending record, and a pending record is the last element.  While it is
    there, exactly one handler instance is suspended at an awaited call,
    and once that call settles, in whichever way, the pending record is
    replaced by a bot record (the reply, or the apology): at that
    settlement, or, when the handler went on to send a tool response, at
    the settlement of that second call.  So on every schedule of events on
    which every awaited call settles, the pending record is always
    eventually gone. *)
Theorem pending_record_invariant (st : App) :
  reachable st ->
  (length (pending_records (messages st)) <= 1)%nat /\
  (forall i m, nth_error (messages st) i = Some m -> is_pending m = true ->
               S i = length (messages st)) /\
  (pending_records (messages st) <> [] ->
   exists k ms,
     suspended st = [k] /\ messages st = ms ++ [pending] /\
     pending_records ms = [] /\
     forall s r,
       let st1 := step st (Settle 0 s r) in
       (exists t, messages st1 = ms ++ [mkMessage bot t] /\
                  suspended st1 = [] /\ isLoading st1 = false) \/
       (k = AwaitSend /\ messages st1 = ms ++ [pending] /\
        forall s' r',
          let st2 := step st1 (Settle 0 s' r') in
          exists t, messages st2 = ms ++ [mkMessage bot t] /\
                    suspended st2 = [] /\ isLoading st2 = false)) /\
  (forall schedule t,
     every_call_settles st schedule ->
     exists t', (t <= t')%nat /\
                pending_records (messages (state_at st schedule t')) = []).
Proof.
  intro Hreach.
  assert (Hlive : forall schedule t,
     every_call_settles st schedule ->
     exists t', (t <= t')%nat /\
                pending_records (messages (state_at st schedule t')) = [])
    by (intros schedule t Hfair; now apply eventually_no_pending).
  destruct (reachable_turn_state st Hreach) as [Hl Hs Hp | k ms Hl Hs Hm Hp].
  - rewrite Hp. split; [cbn; lia|]. split; [|split; [congruence | exact Hlive]].
    intros i m Hn Hpm. apply nth_error_In in Hn.
    pose proof (no_pending_records _ _ Hp Hn). congruence.
  - assert (Hpr : pending_records (messages st) = [pending]).
    { rewrite Hm, pending_records_app, Hp. reflexivity. }
    rewrite Hpr. split; [cbn; lia|]. split.
    { intros i m. rewrite Hm. now apply pending_is_last. }
    split; [|exact Hlive].
    intros _. exists k, ms.
    split; [assumption|]. split; [assumption|]. split; [assumption|].
    intros s r st1. subst st1. cbn [step].
    rewrite (settle_in_flight st k) by assumption.
    set (st0 := mkApp _ _ _ _ _ _ _).
    pose proof (continue_messages (resume k s r) st0 ms Hm) as Hc.
    destruct (resume k s r) as [e | t | p k'] eqn:Hres.
    + left. exists (text errorMessage). now rewrite Hc.
    + left. exists t. now rewrite Hc.
    + right.
      assert (k = AwaitSend) as ->.
      { destruct k as [|c]; [reflexivity|].
        destruct (resume_tool_response c s r) as [E | [t E]]; congruence. }
      assert (exists c, k' = AwaitToolResponse c) as [c ->].
      { destruct s as [result|]; [|discriminate].
        cbn [resume] in Hres. unfold on_result in Hres.
        repeat match type of Hres with
               | match ?x with _ => _ end = _ => destruct x
               | (if ?x then _ else _) = _ => destruct x
               end; try discriminate.
        injection Hres as _ <-. eauto. }
      split; [reflexivity|]. split; [assumption|].
      intros s' r'.
      rewrite (settle_in_flight _ (AwaitToolResponse c)) by reflexivity.
      set (st0' := mkApp _ _ _ _ _ _ _).
      pose proof (continue_messages (resume (AwaitToolResponse c) s' r') st0' ms Hc)
        as Hc'.
      destruct (resume_tool_response c s' r') as [E | [t E]]; rewrite E in *.
      * exists (text errorMessage). now rewrite Hc'.
      * exists (Some t). now rewrite Hc'.
Qed.

Lemma pending_record_invariant_witness :
  let rejecting := fun _ : nat => Settle 0 Rejected zero_random in
  reachable asked /\
  (length (pending_records (messages asked)) <= 1)%nat /\
  every_call_settles asked rejecting /\
  exists t', (0 <= t')%nat /\
             pending_records (messages (state_at asked rejecting t')) = [].
Proof.
  intro rejecting.
  assert (Hfair : every_call_settles asked rejecting)
    by (intros t _; exists t; split; [apply le_n | reflexivity]).
  pose proof (pending_record_invariant asked reachable_asked) as H.
  split; [exact reachable_asked|].
  split; [exact (proj1 H)|].
  split; [exact Hfair|].
  exact (proj2 (proj2 (proj2 H)) rejecting 0%nat Hfair).
Defined.

(** On the schedule [unanswered] the awaited call does not settle. *)
Lemma unanswered_never_settles : ~ every_call_settles (init true) unanswered.
Proof.
  intro H. destruct (H 2%nat) as (t' & Hle & Hev); [discriminate|].
  destruct t' as [|[|t']]; [lia | lia | discriminate Hev].
Qed.

(** C1 (as stated, refuted).  "Always eventually replaced" fails without
    the condition that the awaited call settles: when the user submits and
    the service never answers, the pending record stays for good. *)
Lemma pending_not_always_replaced : ~ pending_always_eventually_replaced.
Proof.
  intro H.
  assert (Hstay : forall n,
    messages (state_at (init true) unanswered (2 + n)) =
    [welcome; mkMessage user (Some (lit "Pizza, please")); pending]).
  { induction n as [|n IH]; [reflexivity|].
    rewrite Nat.add_succ_r, state_at_S.
    replace (unanswered (2 + n)) with (Change []) by reflexivity.
    cbn [step setUserInput messages]. exact IH. }
  destruct (H true unanswered 2%nat) as (t' & Hle & Hgone).
  - pose proof (Hstay 0%nat) as H0.
    change (2 + 0)%nat with 2%nat in H0. rewrite H0. discriminate.
  - replace t' with (2 + (t' - 2))%nat in Hgone by lia.
    rewrite Hstay in Hgone. discriminate.
Qed.

(** ** Errors *)

Lemma snoc_neq {A} (l : list A) (a : A) : l <> l ++ [a].
Proof.
  intro H. apply (f_equal (@length A)) in H.
  rewrite length_app in H. cbn in H. lia.
Qed.

(** Closes a case in which [H] says that an error was logged by a step
    that does not reach the [catch] block. *)
Ltac nothing_logged H :=
  cbn in H; exfalso; exact (snoc_neq _ _ H).

(** A submission that passes the guard of line 73, with text [v]. *)
Lemma handleSendMessage_accepted (st : App) :
  falsy (trim (userInput st)) = false -> isLoading st = false ->
  handleSendMessage st =
  match chatRef st with
  | Some _ =>
      mkApp (messages st ++ [mkMessage user (Some (userInput st)); pending])
            [] true (chatRef st) (suspended st ++ [AwaitSend])
            (sent st ++ [message (userInput st)]) (console st)
  | None =>
      mkApp (messages st ++ [mkMessage user (Some (userInput st)); errorMessage])
            [] false (chatRef st) (suspended st) (sent st)
            (console st ++ [ChatNotInitialized])
  end.
Proof.
  intros Hv Hl. unfold handleSendMessage. rewrite Hv, Hl. cbn [orb].
  destruct (chatRef st); [reflexivity|].
  unfold catch. cbn. now rewrite removelast_snoc2, <- app_assoc.
Qed.

(** The three sources of an error: the chat session is missing, an awaited
    call is rejected, the arguments of [placeOrder] are malformed. *)
Lemma not_initialized_is_caught (st : App) :
  falsy (trim (userInput st)) = false -> isLoading st = false ->
  chatRef st = None ->
  console (step st Submit) = console st ++ [ChatNotInitialized].
Proof.
  intros Hv Hl Hc. cbn [step].
  rewrite handleSendMessage_accepted by assumption. now rewrite Hc.
Qed.

Lemma rejection_is_caught (st : App) (k : Suspended) (r : Num.Random) :
  suspended st = [k] ->
  console (step st (Settle 0 Rejected r)) = console st ++ [Rejection].
Proof.
  intro Hs. cbn [step]. rewrite (settle_in_flight st k) by assumption.
  now destruct k.
Qed.

Lemma on_result_malformed (result : GenerateContentResponse)
      (fc : FunctionCall) (rest : list FunctionCall) (r : Num.Random) :
  functionCalls result = Some (fc :: rest) ->
  is_placeOrder fc = true -> malformed fc = true ->
  on_result result r = Throw TypeError.
Proof.
  unfold on_result, malformed. intros -> -> H.
  destruct (fc_args fc) as [args|]; [|reflexivity].
  destruct (get args items_key) as [[items| |]|]; try reflexivity; discriminate.
Qed.

Lemma malformed_arguments_are_caught (st : App)
      (result : GenerateContentResponse) (fc : FunctionCall)
      (rest : list FunctionCall) (r : Num.Random) :
  suspended st = [AwaitSend] ->
  functionCalls result = Some (fc :: rest) ->
  is_placeOrder fc = true -> malformed fc = true ->
  console (step st (Settle 0 (Fulfilled result) r)) = console st ++ [TypeError].
Proof.
  intros Hs Hf Hn Hm. cbn [step].
  rewrite (settle_in_flight st AwaitSend) by assumption. cbn [resume].
  now rewrite (on_result_malformed result fc rest r).
Qed.

(** A submission of a non-blank text [v] when no turn is in flight. *)
Lemma next_submission (st : App) (v : JsString) :
  isLoading st = false -> suspended st = [] -> falsy (trim v) = false ->
  let st'' := step (step st (Change v)) Submit in
  match chatRef st with
  | Some _ =>
      messages st'' = messages st ++ [mkMessage user (Some v); pending] /\
      sent st'' = sent st ++ [message v] /\
      suspended st'' = [AwaitSend] /\ isLoading st'' = true
  | None =>
      messages st'' = messages st ++ [mkMessage user (Some v); errorMessage] /\
      sent st'' = sent st /\
      suspended st'' = [] /\ isLoading st'' = false
  end.
Proof.
  intros Hl Hs Hv st''. subst st''. cbn [step].
  rewrite handleSendMessage_accepted by assumption.
  cbn [setUserInput chatRef messages userInput suspended sent].
  rewrite Hs. destruct (chatRef st); cbn; auto.
Qed.

(** C2.  Whenever a step of a reachable page ends in the [catch] block
    (an error was logged, whichever of the three kinds it is), the pending
    record is replaced by the record with the fixed apology; the turn is
    over ([isLoading] is false and no handler instance is suspended); no
    call was made on the chat session in that step and no settlement has
    any effect after it (nothing is retried);
    and the next submission of a non-blank text is accepted: the user
    record is appended and, with a chat session, the message is sent and
    a pending record shown. *)
Theorem error_ends_turn_with_apology (st : App) (ev : Event) (e : Error) :
  reachable st ->
  console (step st ev) = console st ++ [e] ->
  let st' := step st ev in
  (exists ms,
     messages st' = ms ++ [errorMessage] /\
     text errorMessage
       = Some (lit "Sorry, something went wrong. Please try again.") /\
     match ev with
     | Submit =>
         e = ChatNotInitialized /\
         ms = messages st ++ [mkMessage user (Some (userInput st))]
     | Settle _ _ _ => messages st = ms ++ [pending]
     | Change _ => False
     end) /\
  pending_records (messages st') = [] /\
  isLoading st' = false /\ suspended st' = [] /\ sent st' = sent st /\
  (forall i s r, step st' (Settle i s r) = st') /\
  forall v, falsy (trim v) = false ->
    let st'' := step (step st' (Change v)) Submit in
    match chatRef st with
    | Some _ =>
        messages st'' = messages st' ++ [mkMessage user (Some v); pending] /\
        sent st'' = sent st' ++ [message v] /\
        suspended st'' = [AwaitSend] /\ isLoading st'' = true
    | None =>
        messages st'' = messages st' ++ [mkMessage user (Some v); errorMessage] /\
        sent st'' = sent st' /\
        suspended st'' = [] /\ isLoading st'' = false
    end.
Proof.
  intros Hreach Hlog st'. subst st'.
  destruct (reachable_turn_state st Hreach) as [Hl Hs Hp | k ms Hl Hs Hm Hp];
    destruct ev as [v | | i s r].
  - nothing_logged Hlog.
  - cbn [step] in Hlog |- *.
    destruct (falsy (trim (userInput st))) eqn:Hv.
    { unfold handleSendMessage in Hlog. rewrite Hv in Hlog.
      nothing_logged Hlog. }
    rewrite handleSendMessage_accepted in Hlog |- * by assumption.
    destruct (chatRef st) as [c|] eqn:Hc; cbn in Hlog.
    { nothing_logged Hlog. }
    apply app_inv_head in Hlog. injection Hlog as <-.
    split.
    { exists (messages st ++ [mkMessage user (Some (userInput st))]).
      cbn. rewrite <- app_assoc. auto. }
    split.
    { cbn [messages]. rewrite pending_records_app, Hp. reflexivity. }
    cbn [isLoading suspended sent].
    split; [reflexivity|]. split; [assumption|]. split; [reflexivity|].
    split; [intros i s r; now apply settle_idle|].
    intros v Hv'.
    exact (next_submission
             (mkApp (messages st ++ [mkMessage user (Some (userInput st)); errorMessage])
                    [] false None (suspended st) (sent st)
                    (console st ++ [ChatNotInitialized]))
             v eq_refl Hs Hv').
  - cbn [step] in Hlog. rewrite settle_idle in Hlog by assumption.
    nothing_logged Hlog.
  - nothing_logged Hlog.
  - cbn [step] in Hlog. unfold handleSendMessage in Hlog.
    rewrite Hl, orb_true_r in Hlog. nothing_logged Hlog.
  - cbn [step] in Hlog |- *. destruct i as [|i].
    2:{ rewrite (settle_beyond st k) in Hlog by assumption.
        nothing_logged Hlog. }
    rewrite (settle_in_flight st k) in Hlog |- * by assumption.
    destruct (resume k s r) as [e' | t | p k']; cbn [continue] in Hlog |- *.
    + cbn in Hlog. apply app_inv_head in Hlog. injection Hlog as <-.
      set (st0 := mkApp _ _ _ _ _ _ _).
      assert (Hmsg : messages (catch e' st0) = ms ++ [errorMessage]).
      { cbn. now rewrite Hm, removelast_last. }
      split; [exists ms; auto|].
      split.
      { rewrite Hmsg. now apply pending_records_snoc. }
      split; [reflexivity|]. split; [reflexivity|]. split; [reflexivity|].
      split; [intros i' s' r'; now apply settle_idle|].
      intros v Hv.
      exact (next_submission (catch e' st0) v eq_refl eq_refl Hv).
    + nothing_logged Hlog.
    + nothing_logged Hlog.
Qed.

Lemma error_ends_turn_with_apology_witness :
  let st' := step asked (Settle 0 Rejected zero_random) in
  reachable asked /\
  console st' = console asked ++ [Rejection] /\
  pending_records (messages st') = [] /\ isLoading st' = false.
Proof.
  intro st'.
  assert (Hlog : console st' = console asked ++ [Rejection]) by reflexivity.
  pose proof (error_ends_turn_with_apology asked _ _ reachable_asked Hlog) as H.
  split; [exact reachable_asked|]. split; [exact Hlog|].
  split; [exact (proj1 (proj2 H)) | exact (proj1 (proj2 (proj2 H)))].
Defined.

(** ** The guard of line 73 *)

(** C3.  A submission whose text is empty or made of whitespace only
    leaves the whole page state as it is: no record is appended, nothing is
    sent, no handler instance is suspended. *)
Theorem blank_submission_is_ignored (st : App) :
  Forall (fun c => is_ws c = true) (userInput st) ->
  step st Submit = st.
Proof.
  intro H. cbn [step]. unfold handleSendMessage.
  now rewrite (proj2 (falsy_trim_iff _) H).
Qed.

Lemma blank_submission_is_ignored_witness :
  let st := step (init true) (Change (lit "   ")) in
  Forall (fun c => is_ws c = true) (userInput st) /\ step st Submit = st.
Proof.
  intro st.
  assert (H : Forall (fun c => is_ws c = true) (userInput st))
    by (repeat constructor).
  split; [exact H | exact (blank_submission_is_ignored st H)].
Defined.

(** C4.  While a turn is in flight ([isLoading] is true, or a handler
    instance is suspended at an [await]) a submission leaves the whole page
    state as it is; so a submission that does start a turn finds no turn in
    flight and no pending record. *)
Theorem submission_in_flight_is_ignored (st : App) :
  reachable st ->
  (isLoading st = true \/ suspended st <> [] -> step st Submit = st) /\
  (step st Submit <> st ->
   isLoading st = false /\ suspended st = [] /\
   pending_records (messages st) = []).
Proof.
  intro Hreach.
  destruct (reachable_turn_state st Hreach) as [Hl Hs Hp | k ms Hl Hs Hm Hp].
  - split; [|auto]. intros [H | H]; congruence.
  - assert (E : step st Submit = st).
    { cbn [step]. unfold handleSendMessage. now rewrite Hl, orb_true_r. }
    split; [auto | congruence].
Qed.

Lemma submission_in_flight_is_ignored_witness :
  reachable asked /\ isLoading asked = true /\ step asked Submit = asked.
Proof.
  split; [exact reachable_asked|]. split; [reflexivity|].
  exact (proj1 (submission_in_flight_is_ignored asked reachable_asked)
               (or_introl eq_refl)).
Defined.

(** ** The reply of the service *)

(** A reachable page whose handler waits for the answer to the user's
    message shows the pending record at the end of the thread. *)
Lemma sending_state (st : App) :
  reachable st -> suspended st = [AwaitSend] ->
  exists ms, messages st = ms ++ [pending] /\ pending_records ms = [] /\
             isLoading st = true.
Proof.
  intros Hreach Hs.
  destruct (reachable_turn_state st Hreach) as [Hl Hs' Hp | k ms Hl Hs' Hm Hp].
  - congruence.
  - eauto.
Qed.

Lemma step_sending (st : App) (result : GenerateContentResponse)
      (r : Num.Random) :
  suspended st = [AwaitSend] ->
  step st (Settle 0 (Fulfilled result) r) =
  continue (on_result result r)
    (mkApp (messages st) (userInput st) (isLoading st) (chatRef st) []
           (sent st) (console st)).
Proof. intro Hs. cbn [step]. now rewrite (settle_in_flight st AwaitSend). Qed.

(** C7.  When the response to the user's message has no function calls
    ([functionCalls] is [undefined] or empty), the pending record is
    replaced by one bot record that holds the text of the response; no call
    is made on the chat session (no tool response is sent), no error is
    logged, and the turn is over. *)
Theorem plain_text_reply (st : App) (result : GenerateContentResponse)
        (r : Num.Random) :
  reachable st -> suspended st = [AwaitSend] ->
  functionCalls result = None \/ functionCalls result = Some [] ->
  let st' := step st (Settle 0 (Fulfilled result) r) in
  (exists ms, messages st = ms ++ [pending] /\
              pending_records ms = [] /\
              messages st' = ms ++ [mkMessage bot (resp_text result)]) /\
  sent st' = sent st /\ console st' = console st /\
  suspended st' = [] /\ isLoading st' = false.
Proof.
  intros Hreach Hs Hf st'. subst st'.
  destruct (sending_state st Hreach Hs) as (ms & Hm & Hp & _).
  rewrite step_sending by assumption.
  assert (E : on_result result r = Reply (resp_text result)).
  { unfold on_result. now destruct Hf as [-> | ->]. }
  rewrite E. cbn. rewrite Hm, removelast_last. eauto 10.
Qed.

Lemma plain_text_reply_witness :
  let result := mkResponse None (Some (lit "Pizza, Burger, Pasta, Salad.")) in
  let st' := step asked (Settle 0 (Fulfilled result) zero_random) in
  reachable asked /\ suspended asked = [AwaitSend] /\
  functionCalls result = None /\
  sent st' = sent asked /\ suspended st' = [].
Proof.
  intros result st'.
  pose proof (plain_text_reply asked result zero_random reachable_asked
                eq_refl (or_introl eq_refl)) as H.
  split; [exact reachable_asked|].
  split; [reflexivity|]. split; [reflexivity|].
  split; [exact (proj1 (proj2 H)) | exact (proj1 (proj2 (proj2 (proj2 H))))].
Defined.

(** C10.  When the response has function calls and the first is not named
    [placeOrder], the pending record is replaced by a bot record whose text
    is the empty string; no call is made on the chat session, no error is
    logged, and the turn is over.  And whatever the first function call is,
    a step does not depend on the function calls after it. *)
Theorem other_function_call_reply (st : App) (fc : FunctionCall)
        (rest : list FunctionCall) (t : option JsString) (r : Num.Random) :
  let result := mkResponse (Some (fc :: rest)) t in
  let st' := step st (Settle 0 (Fulfilled result) r) in
  (reachable st -> suspended st = [AwaitSend] -> is_placeOrder fc = false ->
   (exists ms, messages st = ms ++ [pending] /\
               messages st' = ms ++ [mkMessage bot (Some [])]) /\
   sent st' = sent st /\ console st' = console st /\
   suspended st' = [] /\ isLoading st' = false) /\
  (forall i rest',
     step st (Settle i (Fulfilled result) r) =
     step st (Settle i (Fulfilled (mkResponse (Some (fc :: rest')) t)) r)).
Proof.
  intros result st'. subst result st'. split.
  - intros Hreach Hs Hn.
    destruct (sending_state st Hreach Hs) as (ms & Hm & Hp & _).
    rewrite step_sending by assumption.
    unfold on_result. cbn [functionCalls]. rewrite Hn.
    cbn. rewrite Hm, removelast_last. eauto 10.
  - intros i rest'. cbn [step]. unfold settle.
    destruct (nth_error (suspended st) i) as [[|c]|]; reflexivity.
Qed.

Lemma other_function_call_reply_witness :
  let fc := mkFunctionCall (Some (lit "call-1")) (Some (lit "cancelOrder")) None in
  let st' := step asked (Settle 0 (Fulfilled (mkResponse (Some [fc]) None))
                                zero_random) in
  reachable asked /\ suspended asked = [AwaitSend] /\
  is_placeOrder fc = false /\
  sent st' = sent asked /\ console st' = console asked.
Proof.
  intros fc st'.
  pose proof (proj1 (other_function_call_reply asked fc [] None zero_random)
                reachable_asked eq_refl eq_refl) as H.
  split; [exact reachable_asked|].
  split; [reflexivity|]. split; [reflexivity|].
  split; [exact (proj1 (proj2 H)) | exact (proj1 (proj2 (proj2 H)))].
Defined.

(** ** The order *)

(** A [placeOrder] call with an array as [items]: lines 91-104. *)
Lemma on_result_order (result : GenerateContentResponse) (fc : FunctionCall)
      (rest : list FunctionCall) (args : list (JsString * ArgValue))
      (items : list JsString) (r : Num.Random) :
  functionCalls result = Some (fc :: rest) ->
  is_placeOrder fc = true ->
  fc_args fc = Some args -> get args items_key = Some (ArgArray items) ->
  on_result result r =
  Call (toolResponse (fc_id fc) (fc_name fc) (toolResult (orderNumber r)))
       (AwaitToolResponse (confirmationMessage items (orderNumber r))).
Proof. unfold on_result. now intros -> -> -> ->. Qed.

Lemma or_else_nonempty (a : option JsString) (b : JsString) :
  b <> [] -> or_else a b <> [].
Proof. destruct a as [[|c s]|]; cbn; congruence. Qed.

Lemma confirmationMessage_nonempty (items : list JsString) (n : Z) :
  confirmationMessage items n <> [].
Proof. discriminate. Qed.

(** Line 105, which the handler reaches only with an answer to the call
    that carries the tool response (an answer that the chat session does
    not give, see [session_may_settle]).  With such an answer the pending
    record is replaced by a bot record with the text of the answer, or,
    when that text is empty or [undefined], with the confirmation built at
    line 93, in which every item and the order number [n] of the tool
    response occur. *)
Lemma order_reply (st : App) (result : GenerateContentResponse)
        (fc : FunctionCall) (rest : list FunctionCall)
        (args : list (JsString * ArgValue)) (items : list JsString)
        (r : Num.Random) :
  reachable st -> suspended st = [AwaitSend] ->
  functionCalls result = Some (fc :: rest) ->
  is_placeOrder fc = true ->
  fc_args fc = Some args -> get args items_key = Some (ArgArray items) ->
  let n := orderNumber r in
  let st1 := step st (Settle 0 (Fulfilled result) r) in
  sent st1 = sent st ++ [toolResponse (fc_id fc) (fc_name fc) (toolResult n)] /\
  (forall x, In x items -> occurs_in x (confirmationMessage items n)) /\
  occurs_in (Num.toString n) (confirmationMessage items n) /\
  occurs_in (Num.toString n) (toolResult n) /\
  forall answer r',
    let st2 := step st1 (Settle 0 (Fulfilled answer) r') in
    exists ms botResponseText,
      messages st = ms ++ [pending] /\
      messages st2 = ms ++ [mkMessage bot (Some botResponseText)] /\
      botResponseText <> [] /\
      botResponseText =
        match resp_text answer with
        | Some (c :: s) => c :: s
        | Some [] | None => confirmationMessage items n
        end /\
      sent st2 = sent st1 /\ suspended st2 = [] /\ isLoading st2 = false.
Proof.
  intros Hreach Hs Hf Hn Ha Hi n st1. subst n st1.
  destruct (sending_state st Hreach Hs) as (ms & Hm & Hp & _).
  rewrite step_sending by assumption.
  rewrite (on_result_order result fc rest args items r) by assumption.
  cbn [continue await sent suspended].
  split; [reflexivity|].
  split.
  { intros x Hin. unfold confirmationMessage.
    apply occurs_in_app_r, occurs_in_app_l. now apply occurs_in_join. }
  split.
  { unfold confirmationMessage.
    apply occurs_in_app_r, occurs_in_app_r, occurs_in_app_r, occurs_in_app_l.
    apply occurs_in_refl. }
  split.
  { unfold toolResult. apply occurs_in_app_r, occurs_in_refl. }
  intros answer r'. cbn [step].
  rewrite (settle_in_flight _ (AwaitToolResponse
             (confirmationMessage items (orderNumber r)))) by reflexivity.
  cbn [resume continue reply await messages sent suspended isLoading].
  rewrite Hm, removelast_last.
  exists ms, (or_else (resp_text answer) (confirmationMessage items (orderNumber r))).
  split; [reflexivity|]. split; [reflexivity|].
  split; [apply or_else_nonempty, confirmationMessage_nonempty|].
  split; [|auto].
  destruct (resp_text answer) as [[|c s]|]; reflexivity.
Qed.







(** ** The tool response *)

(** C9 (as amended).  A turn whose response has function calls sends a
    tool response exactly when the first call is [placeOrder] and its
    [items] argument is an array; it then sends one, which carries the [id]
    (and the [name]) of that call unchanged, and the settlement of that call
    sends nothing more and ends the turn.  In every other case the turn
    ends at once and sends none. *)
Theorem tool_response_carries_id (st : App) (result : GenerateContentResponse)
        (fc : FunctionCall) (rest : list FunctionCall) (r : Num.Random) :
  reachable st -> suspended st = [AwaitSend] ->
  functionCalls result = Some (fc :: rest) ->
  let st1 := step st (Settle 0 (Fulfilled result) r) in
  if is_placeOrder fc && negb (malformed fc) then
    sent st1 =
      sent st ++ [toolResponse (fc_id fc) (fc_name fc)
                    (toolResult (orderNumber r))] /\
    forall s r',
      let st2 := step st1 (Settle 0 s r') in
      sent st2 = sent st1 /\ suspended st2 = [] /\ isLoading st2 = false
  else
    sent st1 = sent st /\ suspended st1 = [] /\ isLoading st1 = false.
Proof.
  intros Hreach Hs Hf st1. subst st1.
  rewrite step_sending by assumption.
  destruct (is_placeOrder fc) eqn:Hn; cbn [andb].
  - destruct (malformed fc) eqn:Hbad; cbn [negb].
    + rewrite (on_result_malformed result fc rest r) by assumption.
      cbn. auto.
    + unfold malformed in Hbad.
      destruct (fc_args fc) as [args|] eqn:Ha; [|discriminate].
      destruct (get args items_key) as [[items| |]|] eqn:Hi; try discriminate.
      rewrite (on_result_order result fc rest args items r) by assumption.
      cbn [continue await sent]. split; [reflexivity|].
      intros s r'. cbn [step].
      rewrite (settle_in_flight _ (AwaitToolResponse
                 (confirmationMessage items (orderNumber r)))) by reflexivity.
      destruct s; cbn; auto.
  - unfold on_result. rewrite Hf, Hn. cbn. auto.
Qed.

Lemma tool_response_carries_id_witness :
  let st1 := step asked (Settle 0 (Fulfilled pizza_and_coke) zero_random) in
  reachable asked /\ suspended asked = [AwaitSend] /\
  sent st1 =
    sent asked ++
    [toolResponse (Some (lit "call-1")) (Some placeOrder)
       (lit "Order placed successfully. Order number: 0")].
Proof.
  intro st1.
  split; [exact reachable_asked|]. split; [reflexivity|].
  exact (proj1 (tool_response_carries_id asked pizza_and_coke _ _ zero_random
                  reachable_asked eq_refl eq_refl)).
Defined.

(** C9 (as stated, refuted).  Two turns whose response has a function call
    and that end without any tool response sent: the call is not
    [placeOrder]; the call is [placeOrder] without [items]. *)
Lemma tool_response_not_sent :
  let st1 := step asked (Settle 0 (Fulfilled cancel_order) zero_random) in
  let st2 := step asked (Settle 0 (Fulfilled order_without_items) zero_random) in
  (isLoading st1 = false /\ suspended st1 = [] /\
   length (tool_responses (sent st1)) = 0%nat) /\
  (isLoading st2 = false /\ suspended st2 = [] /\
   length (tool_responses (sent st2)) = 0%nat).
Proof. repeat split. Qed.

(** ** The order number

    [SFmul] rounds the exact product with [binary_round_aux]: a first
    [shr_fexp] shifts out the bits below the unit in the last place, the
    mantissa is rounded to nearest even, and a second [shr_fexp] absorbs a
    carry.  The lemmas follow these steps on non-negative mantissas. *)

Local Open Scope Z_scope.

Lemma digits2_pos_bounds (p : positive) :
  2 ^ (Zpos (digits2_pos p) - 1) <= Zpos p < 2 ^ Zpos (digits2_pos p).
Proof.
  induction p as [p IH | p IH | ]; cbn [digits2_pos].
  - rewrite Pos2Z.inj_succ.
    replace (Z.succ (Zpos (digits2_pos p)) - 1) with (Z.succ (Zpos (digits2_pos p) - 1)) by lia.
    rewrite !Z.pow_succ_r by lia. lia.
  - rewrite Pos2Z.inj_succ.
    replace (Z.succ (Zpos (digits2_pos p)) - 1) with (Z.succ (Zpos (digits2_pos p) - 1)) by lia.
    rewrite !Z.pow_succ_r by lia. lia.
  - cbn. lia.
Qed.

Lemma digits2_pos_le (p : positive) (k : Z) :
  0 <= k -> Zpos p < 2 ^ k -> Zpos (digits2_pos p) <= k.
Proof.
  intros Hk Hp.
  destruct (digits2_pos_bounds p) as [Hlo _].
  destruct (Z_le_gt_dec (Zpos (digits2_pos p)) k) as [|Hgt]; [assumption|].
  assert (2 ^ k <= 2 ^ (Zpos (digits2_pos p) - 1)) by (apply Z.pow_le_mono_r; lia).
  lia.
Qed.

Lemma iter_pos_nat {A} (f : A -> A) (p : positive) (x : A) :
  iter_pos f p x = Nat.iter (Pos.to_nat p) f x.
Proof.
  revert x; induction p as [p IH | p IH | ]; intro x; cbn [iter_pos].
  - rewrite !IH, Pos2Nat.inj_xI.
    replace (S (2 * Pos.to_nat p)) with (Pos.to_nat p + (Pos.to_nat p + 1))%nat by lia.
    rewrite !Nat.iter_add. reflexivity.
  - rewrite !IH, Pos2Nat.inj_xO.
    replace (2 * Pos.to_nat p)%nat with (Pos.to_nat p + Pos.to_nat p)%nat by lia.
    rewrite Nat.iter_add. reflexivity.
  - reflexivity.
Qed.

Lemma shr_1_m (r : shr_record) :
  0 <= shr_m r -> shr_m (shr_1 r) = shr_m r / 2.
Proof.
  destruct r as [m r s]; cbn [shr_m]; intro Hm.
  destruct m as [|[p|p|]|p]; cbn [shr_1 shr_m]; try lia.
  - reflexivity.
  - rewrite Pos2Z.inj_xI. apply Z.div_unique with 1; lia.
  - rewrite Pos2Z.inj_xO. apply Z.div_unique with 0; lia.
  - reflexivity.
Qed.

Lemma shr_1_r (r : shr_record) :
  0 <= shr_m r -> shr_r (shr_1 r) = Z.odd (shr_m r).
Proof.
  destruct r as [m r s]; cbn [shr_m]; intro Hm.
  destruct m as [|[p|p|]|p]; cbn [shr_1 shr_r]; try reflexivity; lia.
Qed.

Lemma iter_shr_1_m (k : nat) (r : shr_record) :
  0 <= shr_m r ->
  shr_m (Nat.iter k shr_1 r) = shr_m r / 2 ^ Z.of_nat k.
Proof.
  intro Hm; induction k as [|k IH].
  - cbn. now rewrite Z.div_1_r.
  - change (Nat.iter (S k) shr_1 r) with (shr_1 (Nat.iter k shr_1 r)).
    rewrite shr_1_m, IH.
    + rewrite Nat2Z.inj_succ, Z.pow_succ_r by lia.
      rewrite Z.div_div by lia. f_equal. lia.
    + rewrite IH. apply Z.div_pos; lia.
Qed.

(** Shifting out [k+1] bits: when the round bit is set, rounding the
    quotient up adds at most half a unit in the last place. *)
Lemma iter_shr_1_r (k : nat) (r : shr_record) :
  0 <= shr_m r ->
  shr_r (Nat.iter (S k) shr_1 r) = true ->
  (shr_m r / 2 ^ Z.of_nat (S k) + 1) * 2 ^ Z.of_nat (S k)
    <= shr_m r + 2 ^ Z.of_nat k.
Proof.
  intros Hm Hr.
  change (Nat.iter (S k) shr_1 r) with (shr_1 (Nat.iter k shr_1 r)) in Hr.
  assert (HP0 : 0 < 2 ^ Z.of_nat k) by (apply Z.pow_pos_nonneg; lia).
  rewrite shr_1_r in Hr by (rewrite iter_shr_1_m by lia; apply Z.div_pos; lia).
  rewrite iter_shr_1_m in Hr by lia.
  set (m := shr_m r) in *. set (P := 2 ^ Z.of_nat k) in *.
  assert (HP : 0 < P) by (apply Z.pow_pos_nonneg; lia).
  rewrite Nat2Z.inj_succ, Z.pow_succ_r by lia. fold P.
  replace (m / (2 * P)) with (m / P / 2)
    by (rewrite Z.div_div by lia; f_equal; lia).
  pose proof (Z.div_mod m P ltac:(lia)) as E1.
  pose proof (Z.mod_pos_bound m P HP) as B1.
  set (q := m / P) in *.
  pose proof (Z.div_mod q 2 ltac:(lia)) as E2.
  pose proof (Zmod_odd q) as E3. rewrite Hr in E3.
  replace ((q / 2 + 1) * (2 * P)) with ((2 * (q / 2) + 2) * P) by ring.
  replace (2 * (q / 2) + 2) with (q + 1) by lia.
  replace ((q + 1) * P) with (P * q + P) by ring.
  lia.
Qed.

Lemma fexp64 (x : Z) : fexp 53 1024 x = Z.max (x - 53) (-1074).
Proof. reflexivity. Qed.

Lemma round_nearest_even_cases (rec : shr_record) :
  let m' := round_nearest_even (shr_m rec) (loc_of_shr_record rec) in
  m' = shr_m rec \/ (m' = shr_m rec + 1 /\ shr_r rec = true).
Proof.
  destruct rec as [m [] []]; cbn; try destruct (Z.even m); auto.
Qed.

(** [shr] from an exact mantissa [m], then rounding to nearest even: with
    [k] the number of bits shifted out, the rounded mantissa lies between
    the truncated quotient and the exact quotient plus one half. *)
Lemma shr_round_spec (m e n : Z) :
  0 <= m ->
  let k := Z.max 0 n in
  let rec := fst (shr (Build_shr_record m false false) e n) in
  let m' := round_nearest_even (shr_m rec) (loc_of_shr_record rec) in
  snd (shr (Build_shr_record m false false) e n) = e + k /\
  shr_m rec = m / 2 ^ k /\
  shr_m rec <= m' /\
  m' * 2 ^ k <= m + 2 ^ k / 2.
Proof.
  intros Hm k rec m'.
  destruct n as [|p|p].
  - subst k rec m'. cbn. rewrite Z.div_1_r. lia.
  - assert (Hk : k = Zpos p) by (subst k; lia).
    destruct (Pos2Nat.is_succ p) as [j Hj].
    assert (Hkj : k = Z.of_nat (S j)) by (rewrite Hk, <- Hj; now rewrite positive_nat_Z).
    assert (Hrec : rec = Nat.iter (S j) shr_1 (Build_shr_record m false false)).
    { subst rec. cbn [shr fst]. now rewrite iter_pos_nat, Hj. }
    assert (Hq : shr_m rec = m / 2 ^ k).
    { rewrite Hrec, Hkj. now apply iter_shr_1_m. }
    assert (Hpow : 0 < 2 ^ k) by (apply Z.pow_pos_nonneg; lia).
    assert (Hhalf : 2 ^ k / 2 = 2 ^ Z.of_nat j).
    { rewrite Hkj, Nat2Z.inj_succ, Z.pow_succ_r by lia.
      rewrite Z.mul_comm, Z.div_mul; lia. }
    assert (Hfloor : m / 2 ^ k * 2 ^ k <= m).
    { rewrite Z.mul_comm. apply Z.mul_div_le. lia. }
    split; [subst rec; cbn [shr snd]; lia|].
    split; [exact Hq|].
    destruct (round_nearest_even_cases rec) as [E | [E Hr]]; fold m' in E.
    + rewrite E, Hq. split; [lia|].
      assert (0 <= 2 ^ k / 2) by (rewrite Hhalf; apply Z.pow_nonneg; lia). lia.
    + rewrite E. split; [lia|].
      rewrite Hhalf, Hq, Hkj.
      rewrite Hrec in Hr.
      apply (iter_shr_1_r j (Build_shr_record m false false)); assumption.
  - subst k rec m'. cbn. rewrite Z.div_1_r. lia.
Qed.

Lemma Zdigits2_le (m k : Z) :
  0 <= m -> 0 <= k -> m < 2 ^ k -> 0 <= Zdigits2 m <= k.
Proof.
  intros Hm Hk Hlt. destruct m as [|p|p]; cbn [Zdigits2]; [lia| |lia].
  split; [lia|]. now apply digits2_pos_le.
Qed.

Lemma pow2_split (a b : Z) : 0 <= a -> 0 <= b -> 2 ^ (a + b) = 2 ^ a * 2 ^ b.
Proof. intros; now apply Z.pow_add_r. Qed.


Lemma below_10000 (m e : Z) :
  0 <= m -> e <= 0 -> m < 10000 * 2 ^ (- e) -> m < 2 ^ (14 - e).
Proof.
  intros Hm He Hlt.
  replace (14 - e) with (14 + - e) by lia.
  rewrite pow2_split by lia.
  assert (0 < 2 ^ (- e)) by (apply Z.pow_pos_nonneg; lia).
  change (2 ^ 14) with 16384. nia.
Qed.

(** The exponent [shr_fexp] settles on for a mantissa below
    [10000 * 2^(-e)] stays at or below the exponent of the unit in the
    last place of 10000, which is [-39]. *)
Lemma shift_amount (m e : Z) :
  0 <= m -> e <= -39 -> m < 10000 * 2 ^ (- e) ->
  let k := Z.max 0 (fexp 53 1024 (Zdigits2 m + e) - e) in
  e + k <= -39 /\ k <= Z.max 0 (Z.max (Zdigits2 m - 53) (- 1074 - e)).
Proof.
  intros Hm He Hlt k. subst k. rewrite fexp64.
  destruct (Zdigits2_le m (14 - e)) as [D0 D1]; try lia.
  apply below_10000; lia.
Qed.

Lemma binary_round_aux_below (M : positive) (E : Z) :
  -1113 <= E <= -92 ->
  Zpos M < 2 ^ 106 ->
  Zpos M + 2 ^ 52 < 10000 * 2 ^ (- E) ->
  binary_round_aux 53 1024 false (Zpos M) E loc_Exact = S754_zero false \/
  exists m' e',
    binary_round_aux 53 1024 false (Zpos M) E loc_Exact = S754_finite false m' e' /\
    e' < 0 /\ Zpos m' < 10000 * 2 ^ (- e').
Proof.
  intros HE HM Hlt.
  assert (P52 : 0 < 2 ^ 52) by (apply Z.pow_pos_nonneg; lia).
  unfold binary_round_aux, shr_fexp. cbn [shr_record_of_loc].
  (* first pass *)
  set (n1 := fexp 53 1024 (Zdigits2 (Zpos M) + E) - E).
  destruct (shift_amount (Zpos M) E) as [K1a K1b]; try lia. fold n1 in K1a, K1b.
  destruct (Zdigits2_le (Zpos M) 106) as [_ D1]; try lia.
  pose proof (shr_round_spec (Zpos M) E n1 ltac:(lia)) as S1. cbn zeta in S1.
  destruct (shr (Build_shr_record (Zpos M) false false) E n1) as [rec1 e1].
  cbn [fst snd] in S1. destruct S1 as (He1 & Hq1 & Hlo1 & Hhi1).
  set (k1 := Z.max 0 n1) in *.
  set (m2 := round_nearest_even (shr_m rec1) (loc_of_shr_record rec1)) in *.
  assert (Hk1 : 0 <= k1 <= 53) by lia.
  assert (Pk1 : 0 < 2 ^ k1) by (apply Z.pow_pos_nonneg; lia).
  assert (Hm2 : 0 <= m2).
  { assert (0 <= Zpos M / 2 ^ k1) by (apply Z.div_pos; lia). lia. }
  assert (Hhalf : 2 ^ k1 / 2 <= 2 ^ 52).
  { apply Z.div_le_upper_bound; [lia|].
    change (2 * 2 ^ 52) with (2 ^ 53). apply Z.pow_le_mono_r; lia. }
  assert (Hm2lt : m2 < 10000 * 2 ^ (- e1)).
  { assert (E2 : 2 ^ (- E) = 2 ^ (- e1) * 2 ^ k1).
    { rewrite <- pow2_split by lia. f_equal. lia. }
    rewrite E2 in Hlt.
    apply (Z.mul_lt_mono_pos_r (2 ^ k1)); [lia|]. lia. }
  (* second pass *)
  set (n2 := fexp 53 1024 (Zdigits2 m2 + e1) - e1).
  destruct (shift_amount m2 e1) as [K2a _]; try lia. fold n2 in K2a.
  pose proof (shr_round_spec m2 e1 n2 Hm2) as S2. cbn zeta in S2.
  destruct (shr (Build_shr_record m2 false false) e1 n2) as [rec2 e2].
  cbn [fst snd] in S2. destruct S2 as (He2 & Hq2 & _ & _).
  set (k2 := Z.max 0 n2) in *.
  assert (Pk2 : 0 < 2 ^ k2) by (apply Z.pow_pos_nonneg; lia).
  assert (Hm3 : 0 <= shr_m rec2) by (rewrite Hq2; apply Z.div_pos; lia).
  assert (Hm3lt : shr_m rec2 < 10000 * 2 ^ (- e2)).
  { assert (E3 : 2 ^ (- e1) = 2 ^ (- e2) * 2 ^ k2).
    { rewrite <- pow2_split by lia. f_equal. lia. }
    rewrite E3 in Hm2lt.
    assert (shr_m rec2 * 2 ^ k2 <= m2).
    { rewrite Hq2, Z.mul_comm. apply Z.mul_div_le. lia. }
    apply (Z.mul_lt_mono_pos_r (2 ^ k2)); [lia|]. lia. }
  destruct (shr_m rec2) as [|m3|m3]; [now left| |lia].
  right. exists m3, e2.
  replace (e2 <=? 1024 - 53) with true by (symmetry; apply Z.leb_le; lia).
  repeat split; [lia | exact Hm3lt].
Qed.

(** A value that [Math.random()] may return is zero or [m * 2^e] with
    [m < 2^53 <= 2^(-e)]. *)
Lemma random_value_finite (m : positive) (e : Z) :
  Num.is_random_value (S754_finite false m e) = true ->
  -1074 <= e <= -53 /\ Zpos m < 2 ^ 53.
Proof.
  unfold Num.is_random_value, Num.prec, Num.emax.
  intro H. apply andb_prop in H as [Hb Hlt].
  unfold bounded, canonical_mantissa in Hb.
  apply andb_prop in Hb as [Hc _]. apply Z.eqb_eq in Hc.
  rewrite fexp64 in Hc.
  destruct (digits2_pos_bounds m) as [Hlo Hhi].
  set (d := Zpos (digits2_pos m)) in *.
  assert (Hd : 0 < d) by (subst d; lia).
  assert (Hm : Zpos m < 2 ^ 53).
  { apply Z.lt_le_trans with (2 ^ d); [assumption|].
    apply Z.pow_le_mono_r; lia. }
  split; [|exact Hm].
  unfold SFltb, SFcompare, Num.one in Hlt.
  destruct (e ?= -52) eqn:Hcmp; try discriminate.
  - apply Z.compare_eq in Hcmp. subst e.
    destruct (Pos.compare_cont Eq m 4503599627370496) eqn:Hmc;
      try discriminate.
    pose proof (proj1 (Pos.compare_lt_iff m 4503599627370496)) as X.
    unfold Pos.compare in X. apply X in Hmc. clear X.
    assert (Hd53 : d = 53) by (clear - Hc; lia).
    rewrite Hd53 in Hlo. change (2 ^ (53 - 1)) with 4503599627370496 in Hlo.
    apply Pos2Z.pos_lt_pos in Hmc. clear - Hlo Hmc. lia.
  - rewrite Z.compare_lt_iff in Hcmp. clear - Hc Hcmp Hd. lia.
Qed.

(** The product of a value of [Math.random()] and [10000], rounded to
    binary64, is zero or a finite positive number below [10000]. *)
Lemma random_times_10000_finite (x : spec_float) :
  Num.is_random_value x = true ->
  Num.mul x Num.ten_thousand = S754_zero false \/
  exists m e,
    Num.mul x Num.ten_thousand = S754_finite false m e /\
    e < 0 /\ Zpos m < 10000 * 2 ^ (- e).
Proof.
  intro H. destruct x as [[|]| | |[|] m e]; try discriminate H.
  - now left.
  - destruct (random_value_finite m e H) as [He Hm].
    unfold Num.mul, Num.ten_thousand, SFmul. cbn [xorb].
    assert (P : 0 < 2 ^ (- e)) by (apply Z.pow_pos_nonneg; lia).
    assert (Hme : Zpos m < 2 ^ (- e)).
    { apply Z.lt_le_trans with (2 ^ 53); [assumption|].
      apply Z.pow_le_mono_r; lia. }
    apply binary_round_aux_below.
    + lia.
    + rewrite Pos2Z.inj_mul.
      change (2 ^ 106) with (2 ^ 53 * 2 ^ 53).
      change (2 ^ 53) with 9007199254740992 in *. nia.
    + rewrite Pos2Z.inj_mul.
      replace (- (e + -39)) with (- e + 39) by lia.
      rewrite pow2_split by lia.
      change (2 ^ 39) with 549755813888. change (2 ^ 52) with 4503599627370496.
      nia.
Qed.

Lemma Math_floor_below_10000 (m : positive) (e : Z) :
  e < 0 -> Zpos m < 10000 * 2 ^ (- e) ->
  0 <= Num.Math_floor (S754_finite false m e) <= 9999.
Proof.
  intros He Hm. cbn [Num.Math_floor].
  rewrite Z.shiftl_div_pow2 by lia.
  assert (P : 0 < 2 ^ (- e)) by (apply Z.pow_pos_nonneg; lia).
  split; [apply Z.div_pos; lia|].
  apply Z.lt_succ_r. change (Z.succ 9999) with 10000.
  apply Z.div_lt_upper_bound; lia.
Qed.

Lemma toString_order_number (n : Z) :
  0 <= n <= 9999 -> is_order_number_text (Num.toString n) = true.
Proof.
  intro Hn.
  assert (Hall : forallb (fun k => is_order_number_text (Num.toString (Z.of_nat k)))
                         (seq 0 (Z.to_nat 10000)) = true)
    by (vm_compute; reflexivity).
  rewrite forallb_forall in Hall.
  rewrite <- (Z2Nat.id n) by lia. apply Hall, in_seq. lia.
Qed.

(** C8.  Whatever [Math.random()] returns, the product with [10000] is a
    finite non-negative binary64 number, and its floor, the order number,
    is an integer from 0 to 9999; its decimal rendering in the two
    messages has one to four digits. *)
Theorem order_number_range (r : Num.Random) :
  (Num.mul (Num.random_value r) Num.ten_thousand = S754_zero false \/
   exists m e,
     Num.mul (Num.random_value r) Num.ten_thousand = S754_finite false m e) /\
  0 <= orderNumber r <= 9999 /\
  is_order_number_text (Num.toString (orderNumber r)) = true.
Proof.
  assert (Hrange : 0 <= orderNumber r <= 9999).
  { unfold orderNumber.
    destruct (random_times_10000_finite _ (Num.random_range r))
      as [-> | (m & e & -> & He & Hm)].
    - cbn. lia.
    - now apply Math_floor_below_10000. }
  split; [|split; [exact Hrange | now apply toString_order_number]].
  destruct (random_times_10000_finite _ (Num.random_range r))
    as [E | (m & e & E & _)]; eauto.
Qed.

(** The largest value of [Math.random()] gives 9999. *)
Example order_number_largest_random :
  Num.mul (Num.random_value largest_random) Num.ten_thousand
    = S754_finite false 5497558138879999 (-39) /\
  orderNumber largest_random = 9999.
Proof. split; reflexivity. Qed.

Local Close Scope Z_scope.

(** ** The form *)

Lemma disabled_submission (st : App) :
  send_disabled st = true -> handleSendMessage st = st.
Proof.
  unfold send_disabled, handleSendMessage. intro H.
  now rewrite orb_comm, H.
Qed.

Lemma enabled_submission (st : App) :
  send_disabled st = false ->
  userInput (handleSendMessage st) = [] /\
  exists m,
    messages (handleSendMessage st) =
    messages st ++ [mkMessage user (Some (userInput st)); m].
Proof.
  unfold send_disabled. intro H. apply orb_false_elim in H as [Hl Hv].
  rewrite handleSendMessage_accepted by assumption.
  destruct (chatRef st); cbn; eauto.
Qed.

Lemma submission_is_idempotent (st : App) :
  handleSendMessage (handleSendMessage st) = handleSendMessage st.
Proof.
  destruct (send_disabled st) eqn:Hd.
  - rewrite (disabled_submission st Hd). exact (disabled_submission st Hd).
  - apply disabled_submission. unfold send_disabled.
    rewrite (proj1 (enabled_submission st Hd)). apply orb_true_r.
Qed.

(** X1.  The send button is disabled (line 353) exactly when the handler
    would return at its guard (line 73) and leave the page as it is.  With
    the button enabled a submission appends the user's record with the
    text of the input as typed, followed by one more record, empties the
    input, and thereby disables the button. *)
Theorem send_button_matches_guard (st : App) :
  (send_disabled st = true <-> step st Submit = st) /\
  (send_disabled st = false ->
   let st' := step st Submit in
   userInput st' = [] /\ send_disabled st' = true /\
   exists m,
     messages st' = messages st ++ [mkMessage user (Some (userInput st)); m]).
Proof.
  cbn [step]. split.
  - split; [apply disabled_submission|].
    intro E. destruct (send_disabled st) eqn:Hd; [reflexivity|].
    destruct (enabled_submission st Hd) as (_ & m & Hm).
    rewrite E in Hm. apply (f_equal (@length Message)) in Hm.
    rewrite length_app in Hm. cbn in Hm. lia.
  - intro Hd. destruct (enabled_submission st Hd) as (Hu & m & Hm).
    split; [exact Hu|]. split; [|eauto].
    unfold send_disabled. rewrite Hu. apply orb_true_r.
Qed.

Lemma send_button_matches_guard_witness :
  let st := step (init true) (Change (lit " Pizza ")) in
  send_disabled st = false /\
  userInput (step st Submit) = [] /\ send_disabled (step st Submit) = true.
Proof.
  intro st.
  pose proof (proj2 (send_button_matches_guard st) eq_refl) as H.
  split; [reflexivity|].
  split; [exact (proj1 H) | exact (proj1 (proj2 H))].
Defined.

(** X2.  Submitting again and again without typing in between is the same
    as submitting once, in every state: an accepted submission empties the
    input, so the next one stops at the guard. *)
Theorem repeated_submission (st : App) (n : nat) :
  run st (repeat Submit (S n)) = step st Submit.
Proof.
  change (run st (repeat Submit (S n)))
    with (run (step st Submit) (repeat Submit n)).
  cbn [step]. induction n as [|n IH]; [reflexivity|].
  change (run (handleSendMessage st) (repeat Submit (S n)))
    with (run (handleSendMessage (handleSendMessage st)) (repeat Submit n)).
  now rewrite submission_is_idempotent.
Qed.

(** ** The bubbles *)

Lemma map_from_length {A B} (f : A -> nat -> B) (k : nat) (l : list A) :
  length (map_from f k l) = length l.
Proof.
  revert k. induction l as [|x l IH]; intro k; cbn; [reflexivity|].
  now rewrite IH.
Qed.

Lemma map_from_nth_error {A B} (f : A -> nat -> B) (k i : nat) (l : list A) :
  nth_error (map_from f k l) i =
  option_map (fun x => f x (k + i)) (nth_error l i).
Proof.
  revert k i. induction l as [|x l IH]; intros k [|i]; cbn; try reflexivity.
  - now rewrite Nat.add_0_r.
  - rewrite IH. now rewrite Nat.add_succ_r.
Qed.

Lemma map_from_keys {A B} (g : A -> B) (k : nat) (l : list A) :
  List.map fst (map_from (fun x index => (index, g x)) k l) = seq k (length l).
Proof.
  revert k. induction l as [|x l IH]; intro k; cbn; [reflexivity|].
  now rewrite IH.
Qed.

Lemma map_from_elements {A B} (g : A -> B) (k : nat) (l : list A) :
  List.map snd (map_from (fun x index => (index, g x)) k l) = List.map g l.
Proof.
  revert k. induction l as [|x l IH]; intro k; cbn; [reflexivity|].
  now rewrite IH.
Qed.

(** The typing indicator is the bubble of a pending record, and of no
    other. *)
Lemma MessageBubble_typing (m : Message) :
  shows_typing_indicator (MessageBubble m) = is_pending m.
Proof.
  unfold MessageBubble, is_pending.
  destruct (sender m), (text m); reflexivity.
Qed.

(** A bubble shows the text of a user or bot record, and no text for a
    pending record. *)
Lemma MessageBubble_texts (m : Message) :
  texts (MessageBubble m) =
  if is_pending m then []
  else match text m with Some s => [s] | None => [] end.
Proof.
  unfold MessageBubble, is_pending.
  destruct (sender m), (text m); reflexivity.
Qed.

(** X3.  Whatever the thread holds, line 340 renders one bubble per
    record, in the order of the thread and with the index of the record as
    its key; the texts on display are those of the records that are not
    pending, each once and in order.  The text of a pending record is not
    displayed, and a record whose text is [undefined] gives an empty
    bubble. *)
Theorem bubbles_show_the_thread (st : App) :
  List.map fst (chat_messages st) = seq 0 (length (messages st)) /\
  List.map snd (chat_messages st) = List.map MessageBubble (messages st) /\
  flat_map (fun b => texts (snd b)) (chat_messages st) =
  flat_map (fun m => match text m with Some s => [s] | None => [] end)
           (committed (messages st)).
Proof.
  unfold chat_messages, Array_map.
  split; [apply map_from_keys|]. split; [apply map_from_elements|].
  generalize 0. unfold committed.
  induction (messages st) as [|m l IH]; intro k; [reflexivity|].
  cbn [map_from flat_map snd filter]. rewrite IH, MessageBubble_texts.
  destruct (is_pending m); reflexivity.
Qed.

(** X4.  In every reachable state the typing indicator is on display
    exactly when [isLoading] is true; it is then in the last bubble and in
    no other, and the send button is disabled. *)
Theorem typing_indicator_matches_loading (st : App) :
  reachable st ->
  existsb (fun b => shows_typing_indicator (snd b)) (chat_messages st)
    = isLoading st /\
  (forall i b,
     nth_error (chat_messages st) i = Some b ->
     shows_typing_indicator (snd b) = true ->
     S i = length (chat_messages st)) /\
  (existsb (fun b => shows_typing_indicator (snd b)) (chat_messages st) = true ->
   send_disabled st = true).
Proof.
  intro Hreach.
  assert (Hex : existsb (fun b => shows_typing_indicator (snd b)) (chat_messages st)
                = existsb is_pending (messages st)).
  { unfold chat_messages, Array_map. generalize 0.
    induction (messages st) as [|m l IH]; intro k; [reflexivity|].
    cbn [map_from existsb snd]. now rewrite IH, MessageBubble_typing. }
  assert (Hlast : forall i b,
     nth_error (chat_messages st) i = Some b ->
     shows_typing_indicator (snd b) = true ->
     exists m, nth_error (messages st) i = Some m /\ is_pending m = true).
  { intros i b Hn Hb. unfold chat_messages, Array_map in Hn.
    rewrite map_from_nth_error in Hn.
    destruct (nth_error (messages st) i) as [m|]; [|discriminate].
    injection Hn as <-. cbn [snd] in Hb. rewrite MessageBubble_typing in Hb.
    eauto. }
  assert (Hlen : length (chat_messages st) = length (messages st))
    by apply map_from_length.
  rewrite Hex, Hlen.
  destruct (reachable_turn_state st Hreach) as [Hl Hs Hp | k ms Hl Hs Hm Hp].
  - assert (Hnone : existsb is_pending (messages st) = false).
    { destruct (existsb is_pending (messages st)) eqn:E; [|reflexivity].
      apply existsb_exists in E as (m & Hin & Hm).
      pose proof (no_pending_records _ _ Hp Hin). congruence. }
    rewrite Hnone, Hl. split; [reflexivity|]. split; [|discriminate].
    intros i b Hn Hb. destruct (Hlast i b Hn Hb) as (m & Hm & Hpm).
    apply nth_error_In in Hm.
    pose proof (no_pending_records _ _ Hp Hm). congruence.
  - rewrite Hl, Hm. split.
    { rewrite existsb_app. cbn. apply orb_true_r. }
    split.
    + intros i b Hn Hb. destruct (Hlast i b Hn Hb) as (m & Hnm & Hpm).
      rewrite Hm in Hnm. now apply (pending_is_last ms i m).
    + intros _. unfold send_disabled. now rewrite Hl.
Qed.

Lemma typing_indicator_matches_loading_witness :
  reachable asked /\
  existsb (fun b => shows_typing_indicator (snd b)) (chat_messages asked) = true.
Proof.
  split; [exact reachable_asked|].
  exact (proj1 (typing_indicator_matches_loading asked reachable_asked)).
Defined.

(** ** The thread as a whole *)

Lemma run_snoc (st : App) (evs : list Event) (ev : Event) :
  run st (evs ++ [ev]) = step (run st evs) ev.
Proof. unfold run. now rewrite fold_left_app. Qed.

Lemma reachable_from_reachable (created : bool) (st : App) :
  reachable_from created st -> reachable st.
Proof. intros [evs ->]. apply reachable_run. constructor. Qed.

(** Induction over the states of a page, from its first state on. *)
Lemma reachable_from_ind (created : bool) (P : App -> Prop) :
  P (init created) ->
  (forall st ev, reachable_from created st -> P st -> P (step st ev)) ->
  forall st, reachable_from created st -> P st.
Proof.
  intros Hinit Hstep st [evs ->].
  induction evs as [|ev evs IH] using rev_ind; [exact Hinit|].
  rewrite run_snoc. apply Hstep; [now exists evs | exact IH].
Qed.

(** What the first [await] can lead to: only the tool response of
    [placeOrder], with the order number drawn at line 92. *)
Lemma resume_call (k : Suspended) (s : Settled) (r : Num.Random)
      (p : SendMessageParameters) (k' : Suspended) :
  resume k s r = Call p k' ->
  k = AwaitSend /\
  exists id items,
    p = toolResponse id (Some placeOrder) (toolResult (orderNumber r)) /\
    k' = AwaitToolResponse (confirmationMessage items (orderNumber r)).
Proof.
  intro Hres. destruct k as [|c].
  - split; [reflexivity|].
    destruct s as [result|]; [|discriminate].
    cbn [resume] in Hres. unfold on_result in Hres.
    destruct (functionCalls result) as [[|fc rest]|]; try discriminate.
    destruct (is_placeOrder fc) eqn:Hn; [|discriminate].
    destruct (fc_args fc) as [args|]; [|discriminate].
    destruct (get args items_key) as [[items| |]|]; try discriminate.
    injection Hres as <- <-.
    unfold is_placeOrder in Hn.
    destruct (fc_name fc) as [name|]; [|discriminate].
    apply eqb_eq in Hn. subst name. eauto.
  - destruct (resume_tool_response c s r) as [E | [t E]]; congruence.
Qed.

(** Every step of a reachable page is of one of the five kinds, and keeps
    the chat session. *)
Lemma step_transition (st : App) (ev : Event) :
  reachable st ->
  transition st (step st ev) /\ chatRef (step st ev) = chatRef st.
Proof.
  intro Hreach.
  destruct (reachable_turn_state st Hreach) as [Hl Hs Hp | k ms Hl Hs Hm Hp];
    destruct ev as [v | | i s r]; cbn [step].
  - split; [now apply same_thread | reflexivity].
  - destruct (falsy (trim (userInput st))) eqn:Hv.
    { unfold handleSendMessage. rewrite Hv. cbn [orb].
      split; [now apply same_thread | reflexivity]. }
    rewrite handleSendMessage_accepted by assumption.
    destruct (chatRef st) as [[]|] eqn:Hc.
    + split; [|reflexivity].
      apply turn_starts; cbn; try reflexivity; try assumption.
      now rewrite Hs.
    + split; [|reflexivity].
      apply turn_refused; cbn; try reflexivity; assumption.
  - rewrite settle_idle by assumption.
    split; [now apply same_thread | reflexivity].
  - split; [now apply same_thread | reflexivity].
  - unfold handleSendMessage. rewrite Hl, orb_true_r.
    split; [now apply same_thread | reflexivity].
  - destruct i as [|i].
    2:{ rewrite (settle_beyond st k) by assumption.
        split; [now apply same_thread | reflexivity]. }
    rewrite (settle_in_flight st k) by assumption.
    destruct (resume k s r) as [e | t | p k'] eqn:Hres; cbn [continue].
    + split; [|reflexivity].
      apply (turn_ends _ _ ms errorMessage); cbn; try reflexivity;
        try assumption.
      * now rewrite Hm, removelast_last.
      * right. eauto.
    + split; [|reflexivity].
      apply (turn_ends _ _ ms (mkMessage bot t)); cbn; try reflexivity;
        try assumption.
      * now rewrite Hm, removelast_last.
      * now left.
    + destruct (resume_call k s r p k' Hres) as (-> & id & items & -> & ->).
      split; [|reflexivity].
      apply (tool_response_sent _ _ id (Some placeOrder)
               (toolResult (orderNumber r))
               (confirmationMessage items (orderNumber r)));
        try reflexivity; eauto.
Qed.

Lemma concat_repeat_snoc {A} (p : list A) (n : nat) :
  concat (repeat p (S n)) = concat (repeat p n) ++ p.
Proof.
  induction n as [|n IH]; cbn [repeat concat] in *.
  - now rewrite app_nil_r.
  - now rewrite IH at 1; rewrite app_assoc.
Qed.

(** X5.  The thread of a page is the welcome message, when [initChat] got
    a chat session, followed by turns: a user record and after it one bot
    record, turn after turn, and at the end, exactly while [isLoading] is
    true, a user record and the pending record.  So the bot never speaks
    twice in a row after the welcome, and every user record gets one
    answer. *)
Theorem thread_alternates (created : bool) (st : App) :
  reachable_from created st ->
  exists n rest,
    messages st = (if created then [welcome] else []) ++ rest /\
    List.map sender rest =
      concat (repeat [user; bot] n)
      ++ (if isLoading st then [user; loading] else []).
Proof.
  revert st. apply reachable_from_ind.
  - exists 0, []. now destruct created.
  - intros st ev Hfrom (n & rest & Hm & Hs).
    pose proof (reachable_from_reachable _ _ Hfrom) as Hreach.
    destruct (proj1 (step_transition st ev Hreach))
      as [Em El _ _ _ | Hl _ Em El _ _ _ | Hl _ Em El _ _ _
          | id name result c _ Em El _ _ _ | ms b Hl Hms _ Hb Em El _ _ _].
    + exists n, rest. now rewrite Em, El.
    + exists n, (rest ++ [mkMessage user (Some (userInput st)); pending]).
      rewrite Em, El, Hm, map_app, Hs, Hl, app_nil_r.
      split; [now rewrite app_assoc | reflexivity].
    + exists (S n), (rest ++ [mkMessage user (Some (userInput st)); errorMessage]).
      rewrite Em, El, Hm, map_app, Hs, Hl, concat_repeat_snoc, !app_nil_r.
      split; [now rewrite app_assoc | reflexivity].
    + exists n, rest. now rewrite Em, El.
    + rewrite Hl in Hs.
      assert (Hne : rest <> []).
      { intros ->. symmetry in Hs. apply app_eq_nil in Hs as [_ Hs].
        discriminate Hs. }
      rewrite (app_removelast_last pending Hne) in Hm, Hs.
      rewrite Hms, app_assoc in Hm. apply app_inj_tail in Hm as [Hms' _].
      change [user; loading] with ([user] ++ [loading]) in Hs.
      rewrite map_app, app_assoc in Hs. apply app_inj_tail in Hs as [Hs' _].
      exists (S n), (removelast rest ++ [b]).
      rewrite Em, El, Hms', map_app, Hs', concat_repeat_snoc, app_nil_r.
      cbn [List.map]. rewrite Hb.
      split; [now rewrite app_assoc | now rewrite <- app_assoc].
Qed.

Lemma thread_alternates_witness :
  reachable_from true asked /\
  exists n rest,
    messages asked = [welcome] ++ rest /\
    List.map sender rest = concat (repeat [user; bot] n) ++ [user; loading].
Proof.
  assert (H : reachable_from true asked)
    by (exists [Change (lit "Pizza, please"); Submit]; reflexivity).
  split; [exact H | exact (thread_alternates true asked H)].
Defined.

Lemma committed_app (l l' : list Message) :
  committed (l ++ l') = committed l ++ committed l'.
Proof. apply filter_app. Qed.

Lemma committed_all (l : list Message) :
  pending_records l = [] -> committed l = l.
Proof.
  intro Hp. unfold committed. induction l as [|m l IH]; [reflexivity|].
  cbn [filter]. unfold pending_records in Hp. cbn [filter] in Hp.
  destruct (is_pending m); [discriminate|].
  cbn [negb]. now rewrite IH.
Qed.

(** A step only adds to the records that are not pending. *)
Lemma committed_grows (st : App) (ev : Event) :
  reachable st ->
  exists suffix,
    committed (messages (step st ev)) = committed (messages st) ++ suffix.
Proof.
  intro Hreach.
  destruct (proj1 (step_transition st ev Hreach))
    as [Em _ _ _ _ | _ _ Em _ _ _ _ | _ _ Em _ _ _ _
        | id name result c _ Em _ _ _ _ | ms b _ Hms Hp Hb Em _ _ _ _];
    rewrite Em.
  - exists []. now rewrite app_nil_r.
  - rewrite committed_app. eauto.
  - rewrite committed_app. eauto.
  - exists []. now rewrite app_nil_r.
  - rewrite Hms, !committed_app. exists (committed [b]).
    cbn. now rewrite app_nil_r.
Qed.

(** X6.  No record that is not pending is ever changed, moved or removed:
    from a reachable state on, whatever happens, the thread still begins
    with the user and bot records it has now, in their order. *)
Theorem records_are_kept (st : App) (evs : list Event) :
  reachable st ->
  exists suffix, messages (run st evs) = committed (messages st) ++ suffix.
Proof.
  intro Hreach.
  assert (Hgrow : exists suffix,
    committed (messages (run st evs)) = committed (messages st) ++ suffix).
  { revert st Hreach. induction evs as [|ev evs IH]; intros st Hreach.
    - exists []. now rewrite app_nil_r.
    - destruct (IH (step st ev)) as [suf Hs]; [now constructor|].
      destruct (committed_grows st ev Hreach) as [suf' Hs'].
      exists (suf' ++ suf). cbn [run fold_left] in *.
      unfold run in Hs. now rewrite Hs, Hs', app_assoc. }
  destruct Hgrow as [suf Hs].
  destruct (reachable_turn_state _ (reachable_run st evs Hreach))
    as [_ _ Hp | k ms _ _ Hm Hp].
  - exists suf. now rewrite <- Hs, committed_all.
  - exists (suf ++ [pending]).
    rewrite Hm, committed_app, committed_all in Hs by assumption.
    cbn in Hs. rewrite app_nil_r in Hs. now rewrite Hm, Hs, app_assoc.
Qed.

Lemma records_are_kept_witness :
  reachable asked /\
  exists suffix,
    messages (run asked [Settle 0 Rejected zero_random]) =
    committed (messages asked) ++ suffix.
Proof.
  split; [exact reachable_asked|].
  exact (records_are_kept asked [Settle 0 Rejected zero_random] reachable_asked).
Defined.

Lemma user_texts_app (l l' : list Message) :
  user_texts (l ++ l') = user_texts l ++ user_texts l'.
Proof. unfold user_texts. now rewrite filter_app, map_app. Qed.

Lemma message_texts_app (l l' : list SendMessageParameters) :
  message_texts (l ++ l') = message_texts l ++ message_texts l'.
Proof. apply flat_map_app. Qed.

(** X7.  With a chat session, the user's records and the user messages
    sent to the session are the same texts in the same order: every text
    the thread shows as the user's was sent, once, as it was typed, and
    nothing else was sent as a user message. *)
Theorem user_records_are_sent (st : App) :
  reachable_from true st ->
  chatRef st = Some chat_session /\
  user_texts (messages st) = List.map Some (message_texts (sent st)).
Proof.
  revert st. apply reachable_from_ind; [split; reflexivity|].
  intros st ev Hfrom [Hc Hu].
  pose proof (reachable_from_reachable _ _ Hfrom) as Hreach.
  destruct (step_transition st ev Hreach) as [Htr Hc'].
  split; [congruence|].
  destruct Htr
    as [Em _ _ Es _ | _ _ Em _ _ Es _ | _ Hnone _ _ _ _ _
        | id name result c _ Em _ _ Es _ | ms b _ Hms _ Hb Em _ _ Es _].
  - now rewrite Em, Es.
  - rewrite Em, Es, user_texts_app, message_texts_app, map_app, Hu.
    reflexivity.
  - congruence.
  - rewrite Em, Es, message_texts_app, Hu. cbn. now rewrite app_nil_r.
  - rewrite Em, Es, <- Hu, Hms, !user_texts_app.
    unfold user_texts, is_user. cbn. now rewrite Hb.
Qed.

Lemma user_records_are_sent_witness :
  reachable_from true asked /\
  user_texts (messages asked) = [Some (lit "Pizza, please")].
Proof.
  assert (H : reachable_from true asked)
    by (exists [Change (lit "Pizza, please"); Submit]; reflexivity).
  split; [exact H | exact (proj2 (user_records_are_sent asked H))].
Defined.

(** ** The calls on the chat session *)

Lemma nth_error_snoc_cases {A} (l : list A) (x y : A) (i : nat) :
  nth_error (l ++ [x]) i = Some y ->
  (i < length l /\ nth_error l i = Some y) \/ (i = length l /\ y = x).
Proof.
  intro H. destruct (Nat.lt_ge_cases i (length l)) as [Hlt | Hge].
  - left. now rewrite nth_error_app1 in H.
  - right. rewrite nth_error_app2 in H by assumption.
    destruct (i - length l) as [|d] eqn:E; cbn in H.
    + split; [lia | congruence].
    + now destruct d.
Qed.

Lemma follows_snoc (l : list SendMessageParameters)
      (p : SendMessageParameters) :
  tool_responses_follow_messages l ->
  (forall id name result,
     p = toolResponse id name result ->
     exists l' m, l = l' ++ [message m]) ->
  tool_responses_follow_messages (l ++ [p]).
Proof.
  intros Hl Hp i id name result Hn.
  destruct (nth_error_snoc_cases l p _ i Hn) as [[Hlt Hi] | [-> E]].
  - destruct (Hl i id name result Hi) as (j & m & -> & Hj).
    exists j, m. split; [reflexivity|].
    rewrite nth_error_app1; [assumption|].
    apply nth_error_Some. congruence.
  - destruct (Hp id name result (eq_sym E)) as (l' & m & ->).
    exists (length l'), m. rewrite length_app. cbn [length].
    split; [lia|].
    rewrite <- app_assoc, nth_error_app2, Nat.sub_diag by lia. reflexivity.
Qed.

Lemma tool_responses_app (l l' : list SendMessageParameters) :
  tool_responses (l ++ l') = tool_responses l ++ tool_responses l'.
Proof. apply filter_app. Qed.

(** What the log of calls keeps, step by step. *)
Lemma sent_invariant (st : App) :
  reachable st ->
  tool_responses_follow_messages (sent st) /\
  length (tool_responses (sent st)) <= length (message_texts (sent st)) /\
  (suspended st = [AwaitSend] ->
   (exists l m, sent st = l ++ [message m]) /\
   length (tool_responses (sent st)) < length (message_texts (sent st))).
Proof.
  induction 1 as [created | st ev Hreach (Hf & Hle & Hlast)].
  - destruct created; cbn.
    + split; [intros [|i] ? ? ? H; discriminate H|].
      split; [lia | discriminate].
    + split; [intros [|i] ? ? ? H; discriminate H|].
      split; [lia | discriminate].
  - destruct (proj1 (step_transition st ev Hreach))
      as [_ _ Esus Es _ | _ _ _ _ Esus Es _ | _ _ _ _ Esus Es _
          | id name result c Hsend _ _ Esus Es _ | ms b _ _ _ _ _ _ Esus Es _];
      rewrite Es, Esus.
    + auto.
    + rewrite tool_responses_app, message_texts_app, !length_app.
      cbn [tool_responses filter message_texts flat_map length app].
      split; [apply follows_snoc; [assumption | discriminate]|].
      split; [lia|]. intros _. split; [eauto | lia].
    + split; [assumption|]. split; [assumption | discriminate].
    + destruct (Hlast Hsend) as [Hend Hlt].
      rewrite tool_responses_app, message_texts_app, !length_app.
      cbn [tool_responses filter message_texts flat_map length app].
      split; [apply follows_snoc; [assumption | intros; exact Hend]|].
      split; [lia | discriminate].
    + split; [assumption|]. split; [assumption | discriminate].
Qed.

(** X9.  In the calls made on the chat session, every tool response comes
    right after a user message: the log never begins with a tool response
    and never has two in a row, and it holds at most as many tool
    responses as user messages. *)
Theorem tool_responses_answer_messages (st : App) :
  reachable st ->
  tool_responses_follow_messages (sent st) /\
  length (tool_responses (sent st)) <= length (message_texts (sent st)).
Proof.
  intro Hreach. destruct (sent_invariant st Hreach) as (Hf & Hle & _).
  now split.
Qed.

Lemma tool_responses_answer_messages_witness :
  let st := step asked (Settle 0 (Fulfilled pizza_and_coke) zero_random) in
  reachable st /\
  length (tool_responses (sent st)) <= length (message_texts (sent st)).
Proof.
  intro st.
  assert (H : reachable st) by (constructor; exact reachable_asked).
  split; [exact H | exact (proj2 (tool_responses_answer_messages st H))].
Defined.

(** ** The order number, again *)

Local Open Scope Z_scope.

(** For each [n] from 0 to 9999, [random_for n] is a value that
    [Math.random()] may return, and line 92 makes [n] of it. *)
Lemma random_for_gives (n : Z) :
  0 <= n <= 9999 ->
  Num.is_random_value (random_for n) = true /\
  Num.Math_floor (Num.mul (random_for n) Num.ten_thousand) = n.
Proof.
  intro Hn.
  assert (Hall : forallb
            (fun k => Num.is_random_value (random_for (Z.of_nat k))
                      && (Num.Math_floor
                            (Num.mul (random_for (Z.of_nat k)) Num.ten_thousand)
                          =? Z.of_nat k))
            (seq 0 (Z.to_nat 10000)) = true)
    by (vm_compute; reflexivity).
  rewrite forallb_forall in Hall.
  specialize (Hall (Z.to_nat n)). rewrite Z2Nat.id in Hall by lia.
  apply andb_prop in Hall as [H1 H2]; [|apply in_seq; lia].
  split; [exact H1 | now apply Z.eqb_eq].
Qed.

(** X10.  Every integer from 0 to 9999 is an order number that line 92 can
    produce: for each there is a value of [Math.random()] that gives it.
    The range 0..9999 is exactly the set of order numbers. *)
Theorem every_order_number_is_possible (n : Z) :
  0 <= n <= 9999 -> exists r : Num.Random, orderNumber r = n.
Proof.
  intro Hn. destruct (random_for_gives n Hn) as [Hr Hf].
  exists (Num.mkRandom (random_for n) Hr). exact Hf.
Qed.

Lemma every_order_number_is_possible_witness :
  0 <= 1234 <= 9999 /\ exists r : Num.Random, orderNumber r = 1234.
Proof.
  assert (H : 0 <= 1234 <= 9999) by (split; discriminate).
  split; [exact H | exact (every_order_number_is_possible 1234 H)].
Defined.

Lemma lit_inj (s t : string) : lit s = lit t -> s = t.
Proof.
  unfold lit. intro H.
  rewrite <- (string_of_list_ascii_of_string s),
          <- (string_of_list_ascii_of_string t).
  f_equal.
  apply (f_equal (List.map ascii_of_N)) in H.
  rewrite !map_map in H.
  rewrite !(map_ext _ (fun a => a) ascii_N_embedding), !map_id in H.
  exact H.
Qed.

Lemma to_int_not_nil (n : Z) :
  Z.to_int n <> Decimal.Pos Decimal.Nil /\
  Z.to_int n <> Decimal.Neg Decimal.Nil.
Proof.
  pose proof (DecimalZ.to_of (Z.to_int n)) as H.
  rewrite DecimalZ.of_to in H.
  split; intro E; rewrite E in H; discriminate H.
Qed.

(** [Number::toString] tells integers apart. *)
Lemma toString_inj (n n' : Z) : Num.toString n = Num.toString n' -> n = n'.
Proof.
  unfold Num.toString. intro H. apply lit_inj in H.
  destruct (to_int_not_nil n) as [Hp Hn], (to_int_not_nil n') as [Hp' Hn'].
  pose proof (NilZero.isi _ Hp Hn) as E.
  rewrite H, (NilZero.isi _ Hp' Hn') in E.
  apply DecimalZ.to_int_inj. congruence.
Qed.

(** X11.  The order number can be read off both texts that carry it: two
    tool results are equal only for the same order number, and so are two
    confirmations for the same items. *)
Theorem order_number_is_determined (items : list JsString) (n n' : Z) :
  (toolResult n = toolResult n' -> n = n') /\
  (confirmationMessage items n = confirmationMessage items n' -> n = n').
Proof.
  split; intro H.
  - unfold toolResult in H. apply app_inv_head in H. now apply toString_inj.
  - unfold confirmationMessage in H.
    do 3 apply app_inv_head in H. apply app_inv_tail in H.
    now apply toString_inj.
Qed.

(** ** What is sent *)

(** X12.  Every tool response that the page ever sends carries the name
    [placeOrder] and, as its result, the text of line 101 with an order
    number drawn at line 92. *)
Theorem tool_responses_are_orders (st : App) :
  reachable st ->
  Forall (fun p => match p with
                   | message _ => True
                   | toolResponse _ name result =>
                       name = Some placeOrder /\
                       exists r, result = toolResult (orderNumber r)
                   end) (sent st).
Proof.
  induction 1 as [[] | st ev Hreach IH]; [constructor | constructor |].
  destruct (proj1 (step_transition st ev Hreach))
    as [_ _ _ Es _ | _ _ _ _ _ Es _ _ | _ _ _ _ _ Es _ _
        | id name result c _ _ _ _ Es _ Hname Hres | ms b _ _ _ _ _ _ _ Es _];
    rewrite Es; try assumption.
  - apply Forall_app. split; [assumption | now repeat constructor].
  - apply Forall_app. split; [assumption | now repeat constructor].
Qed.

Lemma tool_responses_are_orders_witness :
  let st := step asked (Settle 0 (Fulfilled pizza_and_coke) zero_random) in
  reachable st /\
  Forall (fun p => match p with
                   | message _ => True
                   | toolResponse _ name result =>
                       name = Some placeOrder /\
                       exists r, result = toolResult (orderNumber r)
                   end) (sent st).
Proof.
  intro st.
  assert (H : reachable st) by (constructor; exact reachable_asked).
  split; [exact H | exact (tool_responses_are_orders st H)].
Defined.

(** X13.  Nothing blank is ever sent or shown as the user's: in every
    reachable state each user message sent to the chat session, and the
    text of each user record of the thread, has a character that is not
    whitespace. *)
Theorem nothing_blank_is_sent (st : App) :
  reachable st ->
  Forall (fun t => falsy (trim t) = false) (message_texts (sent st)) /\
  Forall (fun m => sender m = user ->
                   exists t, text m = Some t /\ falsy (trim t) = false)
         (messages st).
Proof.
  induction 1 as [[] | st ev Hreach [IHs IHm]].
  - split; repeat constructor. discriminate.
  - split; constructor.
  - destruct (proj1 (step_transition st ev Hreach))
      as [Em _ _ Es _ | _ _ Em _ _ Es _ Hv | _ _ Em _ _ Es _ Hv
          | id name result c _ Em _ _ Es _ _ _ | ms b _ Hms _ Hb Em _ _ Es _];
      rewrite Em, Es.
    + now split.
    + rewrite message_texts_app. split; apply Forall_app; split;
        try assumption; repeat constructor; cbn; eauto; discriminate.
    + split; [assumption|]. apply Forall_app; split;
        try assumption; repeat constructor; cbn; eauto; discriminate.
    + rewrite message_texts_app. split; [|assumption].
      apply Forall_app. split; [assumption | constructor].
    + split; [assumption|].
      rewrite Hms in IHm. apply Forall_app in IHm as [IHm _].
      apply Forall_app. split; [assumption|].
      repeat constructor. congruence.
Qed.

Lemma nothing_blank_is_sent_witness :
  reachable asked /\
  Forall (fun t => falsy (trim t) = false) (message_texts (sent asked)).
Proof.
  split; [exact reachable_asked|].
  exact (proj1 (nothing_blank_is_sent asked reachable_asked)).
Defined.

(** X14.  The input field changes by typing and by an accepted submission,
    which empties it, and by nothing else: what the user types while the
    answer is awaited is still there when the answer, or the failure,
    arrives. *)
Theorem input_field_is_kept (st : App) (ev : Event) :
  userInput (step st ev) =
  match ev with
  | Change value => value
  | Submit => if send_disabled st then userInput st else []
  | Settle _ _ _ => userInput st
  end.
Proof.
  destruct ev as [v | | i s r]; cbn [step].
  - reflexivity.
  - destruct (send_disabled st) eqn:Hd.
    + now rewrite disabled_submission.
    + exact (proj1 (enabled_submission st Hd)).
  - unfold settle. destruct (nth_error (suspended st) i) as [k|]; [|reflexivity].
    now destruct (resume k s r).
Qed.

Lemma order_number_is_determined_witness :
  toolResult 7 = toolResult 7 /\ 7 = 7.
Proof.
  split; [reflexivity|].
  exact (proj1 (order_number_is_determined [] 7 7) eq_refl).
Defined.
